(** * Transaction Analyzer (calculate.py): the aggregation pass, verified

    A shallow embedding of [calculate.py]: the cleaning of the uploaded
    sheet, the sidebar values derived from the selected year, the filter,
    the three key metrics, the pivot table, the two chart series and the
    export request.

    Conventions of the embedding.
    - A data frame of transactions is the list of its rows, in row order.
      The derived columns ['Year'], ['Month'] and ['Month_Num'] are
      functions of the row's date, as the script computes them once and
      never assigns them again.
    - A row holds the integer its ['Base Amount'] cell holds, and
      [series_sum] is the exact sum of such cells.  The properties that say
      over which records a number is summed, and where it is shown, are
      stated with them.  The number the script shows is that sum as the
      dtype of the column stores and adds it, int64 or float64 (section
      "The arithmetic of the amount column", module [Dtype]); the
      properties that compare sums taken in different groupings are stated
      there, since they depend on the dtype.
    - The sheet holds parsed dates, texts as account codes and integers as
      amounts; an empty cell, or a text [read_excel] takes for a missing
      value, is [None].  A sheet with a cell of another kind (an account
      code that is a number, an unparsable date), on which lines 21 or 33
      raise, is outside this model.
    - Account codes and month labels are strings, ordered as Python orders
      [str]: lexicographically by character code.
    - pandas operations that return a new frame are pure functions; the two
      statements that assign a column in place are modelled on a heap of
      frame objects (module [Script]). *)

From Stdlib Require Import ZArith String Ascii List Sorting.Sorted.
From Stdlib Require QArith OrderedTypeEx DecimalString DecimalZ DecimalPos DecimalNat.
From Stdlib Require PrimFloat Uint63.
From stdpp Require Import base option list sorting gmap strings.

Local Open Scope string_scope.
Local Open Scope Z_scope.
Local Open Scope list_scope.

(** ** Dates *)

Inductive calendar_month :=
| January | February | March | April | May | June
| July | August | September | October | November | December.

Global Instance calendar_month_eq_dec : EqDecision calendar_month.
Proof. solve_decision. Defined.

Record date := { d_year : Z; d_month : calendar_month; d_day : nat }.

Global Instance date_eq_dec : EqDecision date.
Proof. solve_decision. Defined.

(** [Timestamp.month]: 1 for January up to 12 for December. *)
Definition month_number (m : calendar_month) : nat :=
  match m with
  | January => 1 | February => 2 | March => 3 | April => 4
  | May => 5 | June => 6 | July => 7 | August => 8
  | September => 9 | October => 10 | November => 11 | December => 12
  end%nat.

(** [strftime('%b')]: the abbreviated month name. *)
Definition month_abbr (m : calendar_month) : string :=
  match m with
  | January => "Jan" | February => "Feb" | March => "Mar" | April => "Apr"
  | May => "May" | June => "Jun" | July => "Jul" | August => "Aug"
  | September => "Sep" | October => "Oct" | November => "Nov" | December => "Dec"
  end.

(** The twelve months in calendar order. *)
Definition calendar : list calendar_month :=
  [January; February; March; April; May; June;
   July; August; September; October; November; December].

(** ** The uploaded sheet and its cleaning (lines 17-24) *)

(** The three columns the script consumes. *)
Inductive column := col_Transaction_Date | col_Account_Code | col_Base_Amount.

(** A row of the sheet: an empty cell is [None] (NaN/NaT).  The dtype
    [read_excel] gives the amounts depends on all the rows of the sheet;
    it is [amount_dtype] below. *)
Record raw_row := {
  raw_date : option date;
  raw_code : option string;
  raw_amount : option Z
}.

(** [isna]: the cell of column [c] is missing. *)
Definition isna (c : column) (r : raw_row) : bool :=
  match c with
  | col_Transaction_Date => bool_decide (raw_date r = None)
  | col_Account_Code => bool_decide (raw_code r = None)
  | col_Base_Amount => bool_decide (raw_amount r = None)
  end.

(** A row with all three required cells present. *)
Definition complete (r : raw_row) : Prop :=
  is_Some (raw_date r) ∧ is_Some (raw_code r) ∧ is_Some (raw_amount r).

(** [df.dropna(subset=cols)]: keep the rows with no missing value in any
    of the columns [cols], in their order. *)
Definition dropna (subset : list column) (df : list raw_row) : list raw_row :=
  List.filter (fun r => forallb (fun c => negb (isna c r)) subset) df.

(** The subset of line 18. *)
Definition required : list column :=
  [col_Transaction_Date; col_Account_Code; col_Base_Amount].

(** A cleaned transaction: all three fields are present. *)
Record row := {
  Transaction_Date : date;
  Account_Code : string;
  Base_Amount : Z
}.

Global Instance row_eq_dec : EqDecision row.
Proof. solve_decision. Defined.

(** The derived columns (lines 22-24). *)
Definition Year (r : row) : Z := d_year (Transaction_Date r).
Definition Month (r : row) : string := month_abbr (d_month (Transaction_Date r)).
Definition Month_Num (r : row) : nat := month_number (d_month (Transaction_Date r)).

(** The typed view of one row of the cleaned frame ([pd.to_datetime] keeps
    a parsed date as it is); it is undefined on a row with a missing
    field. *)
Definition typed (r : raw_row) : option row :=
  d ← raw_date r; c ← raw_code r; a ← raw_amount r;
  Some {| Transaction_Date := d; Account_Code := c; Base_Amount := a |}.

(** The row of the sheet a cleaned transaction comes from. *)
Definition untyped (r : row) : raw_row :=
  {| raw_date := Some (Transaction_Date r);
     raw_code := Some (Account_Code r);
     raw_amount := Some (Base_Amount r) |}.

(** Lines 17-24 on such a sheet: drop the incomplete rows, derive the date
    columns.  No step fails on these sheets, so a result is always
    returned; the failures of lines 17 and 21 are those of the sheets left
    out above. *)
Definition load (sheet : list raw_row) : option (list row) :=
  mapM typed (dropna required sheet).

(** ** Order on strings *)

(** Python compares [str] values lexicographically by code point. *)
Definition str_le (s1 s2 : string) : Prop := String.leb s1 s2 = true.
Definition str_lt (s1 s2 : string) : Prop := String.ltb s1 s2 = true.

Global Instance str_le_dec s1 s2 : Decision (str_le s1 s2).
Proof. unfold str_le. apply _. Defined.

(** [sorted(l)] on strings. *)
Definition sorted_str (l : list string) : list string := merge_sort str_le l.

(** [Series.unique()]: the distinct values in order of first appearance. *)
Fixpoint unique {A} `{EqDecision A} (l : list A) : list A :=
  match l with
  | [] => []
  | x :: l' => x :: List.filter (fun y => negb (bool_decide (y = x))) (unique l')
  end.

(** [Series.isin(values)]. *)
Definition isin {A} `{EqDecision A} (x : A) (values : list A) : bool :=
  bool_decide (x ∈ values).

(** [Series.sum()] over exact integers; 0 on an empty series.  The sum as
    a dtype adds it is [Dtype.series_sum]. *)
Definition series_sum (l : list Z) : Z := foldr Z.add 0 l.

(** The month of a row's date. *)
Definition row_month (r : row) : calendar_month := d_month (Transaction_Date r).

(** The months in which a frame has at least one row, in calendar order
    (used to state the properties; the script does not compute it). *)
Definition months_of (f : list row) : list calendar_month :=
  List.filter (fun mo => bool_decide (mo ∈ map row_month f)) calendar.

(** Calendar order: strictly increasing month numbers. *)
Definition calendar_lt (a b : calendar_month) : Prop :=
  (month_number a < month_number b)%nat.

(** ** Sidebar (lines 30-39) *)

(** What the three widgets return. *)
Record selection := {
  selected_year : Z;
  selected_codes : list string;
  selected_months : list string
}.

(** Line 31: [df[df['Year'] == selected_year]]. *)
Definition df_year (df : list row) (y : Z) : list row :=
  List.filter (fun r => bool_decide (Year r = y)) df.

(** Line 30: the options of the year box, [sorted(..., reverse=True)]. *)
Definition year_options (df : list row) : list Z :=
  reverse (merge_sort Z.le (unique (map Year df))).

(** Line 33. *)
Definition account_codes (dfy : list row) : list string :=
  sorted_str (unique (map Account_Code dfy)).

(** Line 36. *)
Definition month_options (dfy : list row) : list string :=
  unique (map Month dfy).

(** [dict(pairs)]: a later pair overwrites an earlier one with the same key. *)
Definition dict (pairs : list (string * nat)) : gmap string nat :=
  foldl (fun m kv => <[kv.1 := kv.2]> m) ∅ pairs.

(** Line 37. *)
Definition month_map (dfy : list row) : gmap string nat :=
  dict (zip (map Month dfy) (map Month_Num dfy)).

(** Ascending order of the sort key of a decorated element. *)
Definition key_le {A} (a b : A * nat) : Prop := (a.2 ≤ b.2)%nat.

Global Instance key_le_dec {A} (a b : A * nat) : Decision (key_le a b).
Proof. unfold key_le. apply _. Defined.

(** [sorted(l, key=lambda m: mm[m])]: the keys are computed first, and a
    label missing from [mm] raises KeyError ([None]).  Python's sort is
    stable; the result does not depend on that where the keys are pairwise
    distinct, as they are for the labels of distinct months. *)
Definition sorted_by_map (mm : gmap string nat) (l : list string) : option (list string) :=
  ks ← mapM (fun m => mm !! m) l;
  Some (map fst (merge_sort key_le (zip l ks))).

(** Line 38. *)
Definition sorted_months (dfy : list row) : option (list string) :=
  sorted_by_map (month_map dfy) (month_options dfy).

(** A selection the widgets can return: the year is one of the year
    options, the codes and the months are among the options offered. *)
Definition valid_selection (df : list row) (sel : selection) : Prop :=
  selected_year sel ∈ year_options df ∧
  selected_codes sel ⊆ account_codes (df_year df (selected_year sel)) ∧
  ∃ sm, sorted_months (df_year df (selected_year sel)) = Some sm ∧
        selected_months sel ⊆ sm.

(** ** Filtered data (lines 42-45) *)

(** [df_year[isin(codes) & isin(months)]]: the rows of the year's frame
    that pass both tests, in their order. *)
Definition filtered_df (dfy : list row) (codes months : list string) : list row :=
  List.filter (fun r => isin (Account_Code r) codes && isin (Month r) months) dfy.

(** Lines 31 and 42-45 together: the subset a selection keeps. *)
Definition filtered (df : list row) (sel : selection) : list row :=
  filtered_df (df_year df (selected_year sel)) (selected_codes sel) (selected_months sel).

(** ** Key metrics (lines 50-52) *)

(** A float result: not-a-number, or a number, kept as the exact quotient
    it stands for. *)
Inductive float_value :=
| NaN
| Finite (q : QArith_base.Q).

(** The value of a metric is defined when it is a number. *)
Definition defined (v : float_value) : Prop := ∃ q, v = Finite q.

(** Line 50: [len(filtered_df)]. *)
Definition total_transactions (f : list row) : nat := length f.

(** Line 51: [filtered_df['Base Amount'].sum()], over exact integers; as a
    dtype adds it, [Dtype.total_amount]. *)
Definition total_amount (f : list row) : Z := series_sum (map Base_Amount f).

(** [Series.mean()]: NaN on an empty series, no exception. *)
Definition series_mean (l : list Z) : float_value :=
  match l with
  | [] => NaN
  | _ :: _ => Finite (QArith_base.Qmake (series_sum l) (Pos.of_nat (length l)))
  end.

(** Line 52: [filtered_df['Base Amount'].mean()]. *)
Definition avg_per_transaction (f : list row) : float_value :=
  series_mean (map Base_Amount f).

(** ** Pivot table (lines 58-67) *)

(** A numeric frame indexed by account code: the row labels and the
    columns in order, each a label with one value per row. *)
Record pivot_frame := {
  index : list string;
  columns : list (string * list Z)
}.

(** The rows of one (account code, month) group. *)
Definition group (f : list row) (c m : string) : list row :=
  List.filter (fun r => bool_decide (Account_Code r = c) && bool_decide (Month r = m)) f.

(** One cell of the unstacked table: the sum of the group, and
    [fill_value] where there is no such group. *)
Definition pivot_cell (f : list row) (fill_value : Z) (c m : string) : Z :=
  match group f c m with
  | [] => fill_value
  | g => series_sum (map Base_Amount g)
  end.

(** [pd.pivot_table(f, index='Account Code', columns='Month',
    values='Base Amount', aggfunc='sum', fill_value=v)]: the group keys of
    both axes come out sorted. *)
Definition pivot_table (f : list row) (fill_value : Z) : pivot_frame :=
  let idx := sorted_str (unique (map Account_Code f)) in
  let cols := sorted_str (unique (map Month f)) in
  {| index := idx;
     columns := map (fun m => (m, map (fun c => pivot_cell f fill_value c m) idx)) cols |}.

(** [p[label]] as a lookup that may miss. *)
Fixpoint get_column (label : string) (cols : list (string * list Z)) : option (list Z) :=
  match cols with
  | [] => None
  | (l, v) :: cols' => if decide (l = label) then Some v else get_column label cols'
  end.

(** [p.reindex(columns=labels, fill_value=v)]: the columns become [labels],
    in that order; a label the frame does not have is filled with [v]. *)
Definition reindex (p : pivot_frame) (labels : list string) (fill_value : Z) : pivot_frame :=
  {| index := index p;
     columns := map (fun l => (l, default (replicate (length (index p)) fill_value)
                                          (get_column l (columns p)))) labels |}.

(** [p.sum(axis=1)]: for each row, the sum over all columns. *)
Definition sum_axis1 (p : pivot_frame) : list Z :=
  foldr (fun col acc => zip_with Z.add col.2 acc)
        (replicate (length (index p)) 0) (columns p).

(** [p[label] = values], in place: an existing column is replaced where it
    stands, a new one is appended. *)
Fixpoint set_column (label : string) (values : list Z) (cols : list (string * list Z))
  : list (string * list Z) :=
  match cols with
  | [] => [(label, values)]
  | (l, v) :: cols' =>
      if decide (l = label) then (l, values) :: cols'
      else (l, v) :: set_column label values cols'
  end.

(** [p[label] = values] on a frame. *)
Definition setitem (p : pivot_frame) (label : string) (values : list Z) : pivot_frame :=
  {| index := index p; columns := set_column label values (columns p) |}.

(** Lines 58-67 together. *)
Definition pivot (f : list row) (sm : list string) : pivot_frame :=
  let p := reindex (pivot_table f 0) sm 0 in
  setitem p "Total" (sum_axis1 p).

(** [p.loc[c, m]]. *)
Definition loc (p : pivot_frame) (c m : string) : option Z :=
  i ← list_find (fun x => x = c) (index p);
  v ← get_column m (columns p);
  v !! i.1.

(** ** Chart series (lines 72-74 and 89) *)

(** [f.groupby(key).agg({'Base Amount': 'sum'}).reset_index()]: one row per
    distinct key, the keys sorted. *)
Definition groupby_sum (key : row → string) (f : list row) : list (string * Z) :=
  map (fun k => (k, series_sum (map Base_Amount (List.filter (fun r => bool_decide (key r = k)) f))))
      (sorted_str (unique (map key f))).

(** [Series.map(mm)]: a label missing from the dict gives NaN ([None]). *)
Definition with_month_num (mm : gmap string nat) (g : list (string * Z))
  : list (string * Z * option nat) :=
  map (fun kv => (kv.1, kv.2, mm !! kv.1)) g.

(** Ascending order of ['Month_Num'], NaN last. *)
Definition num_le (a b : string * Z * option nat) : Prop :=
  match a.2, b.2 with
  | Some x, Some y => (x ≤ y)%nat
  | _, None => True
  | None, Some _ => False
  end.

Global Instance num_le_dec a b : Decision (num_le a b).
Proof. unfold num_le. destruct (a.2), (b.2); apply _. Defined.

(** [g.sort_values(by='Month_Num')].  The order among rows with equal keys
    is not fixed by pandas' default sort; the keys are distinct wherever
    this is used on the script's own values. *)
Definition sort_values (g : list (string * Z * option nat)) : list (string * Z * option nat) :=
  merge_sort num_le g.

(** Lines 72-74. *)
Definition monthly_totals (f : list row) (mm : gmap string nat)
  : list (string * Z * option nat) :=
  sort_values (with_month_num mm (groupby_sum Month f)).

(** Line 89. *)
Definition code_totals (f : list row) : list (string * Z) :=
  groupby_sum Account_Code f.

(** ** Amounts of groups (used to state the properties) *)

(** The amount of the rows that pass a test. *)
Definition amount_where (P : row → bool) (f : list row) : Z :=
  series_sum (map Base_Amount (List.filter P f)).

(** The amount of one (account code, month) cell. *)
Definition cell_amount (f : list row) (c m : string) : Z :=
  amount_where (fun r => bool_decide (Account_Code r = c) && bool_decide (Month r = m)) f.

(** The row total of an account code over a list of month labels. *)
Definition row_total (f : list row) (sm : list string) (c : string) : Z :=
  series_sum (map (cell_amount f c) sm).

(** ** Statements of the specification that the properties refer to *)

(** The claim as the specification states it: the month columns of the
    pivot are the selected months. *)
Definition columns_are_selected_months (df : list row) (sel : selection) : Prop :=
  ∀ sm, sorted_months (df_year df (selected_year sel)) = Some sm →
        map fst (columns (pivot (filtered df sel) sm)) = selected_months sel ++ ["Total"].

(** The claim on the average of an empty subset, as the specification
    states it: the metric resolves to a defined value. *)
Definition empty_average_is_defined (df : list row) (sel : selection) : Prop :=
  total_transactions (filtered df sel) = 0%nat →
  defined (avg_per_transaction (filtered df sel)).

(** ** Excel export (lines 101-111) *)

(** [f"{selected_year}"]: the year in decimal digits. *)
Definition str_of_year (y : Z) : string :=
  DecimalString.NilZero.string_of_int (Z.to_int y).

(** The download the page offers.  The workbook is kept as the list of the
    sheets written to it, each a name with the frame written; its encoding
    as bytes is the work of the spreadsheet library and is not modelled. *)
Record download := {
  data : list (string * pivot_frame);
  file_name : string;
  mime : string
}.

(** Lines 101-111: one [to_excel] call into a new workbook, then the
    download button. *)
Definition export (pivot : pivot_frame) (y : Z) : download :=
  {| data := [(String.append "Pivot_" (str_of_year y), pivot)];
     file_name := String.append "pivot_" (String.append (str_of_year y) ".xlsx");
     mime := "application/vnd.openxmlformats-officedocument.spreadsheetml.sheet" |}.

(** ** The pass as a program over frame objects *)

(** Python names are bound to objects.  Indexing with a mask,
    [pivot_table], [reindex], [groupby(...).agg(...).reset_index()] and
    [sort_values] each build a new object; an assignment [p[label] = ...]
    changes the object [p] is bound to.  The heap holds the frame objects;
    a name holds a reference into it. *)
Module Script.

(** The frames of the script: transaction rows, the pivot, a grouped
    frame, and a grouped frame with the column ['Month_Num']. *)
Inductive frame :=
| Transactions (rows : list row)
| PivotTable (p : pivot_frame)
| GroupTotals (g : list (string * Z))
| MonthTotals (g : list (string * Z * option nat)).

Abbreviation ref := nat.
Abbreviation heap := (list frame).

(** A computation reads and writes the heap and may fail. *)
Definition M (A : Type) : Type := heap → option (A * heap).

(** Sequencing, failure, and the embedding of a fallible value. *)
Definition ret {A} (a : A) : M A := fun h => Some (a, h).

Definition bind {A B} (m : M A) (k : A → M B) : M B :=
  fun h => match m h with
           | Some (a, h') => k a h'
           | None => None
           end.

Definition raise {A} : M A := fun _ => None.

Definition lift {A} (o : option A) : M A :=
  match o with Some a => ret a | None => raise end.

Notation "x <- m ;; k" := (bind m (fun x => k))
  (at level 100, m at next level, right associativity).
Notation "m ;;; k" := (bind m (fun _ => k))
  (at level 100, right associativity).

(** A new object, at a reference no name holds yet. *)
Definition new (o : frame) : M ref := fun h : heap => Some (length h, h ++ [o]).

(** The object a name is bound to. *)
Definition get (l : ref) : M frame := fun h : heap => (fun o => (o, h)) <$> h !! l.

(** Overwrite the object at [l]: every name bound to [l] sees the change. *)
Definition put (l : ref) (o : frame) : M unit :=
  fun h : heap => if decide (l < length h)%nat then Some (tt, <[l := o]> h) else None.

(** Reading a frame of a given kind; another kind is a failure. *)
Definition transactions (l : ref) : M (list row) :=
  o <- get l ;; match o with Transactions rows => ret rows | _ => raise end.

Definition pivot_at (l : ref) : M pivot_frame :=
  o <- get l ;; match o with PivotTable p => ret p | _ => raise end.

Definition group_totals (l : ref) : M (list (string * Z)) :=
  o <- get l ;; match o with GroupTotals g => ret g | _ => raise end.

Definition month_totals (l : ref) : M (list (string * Z * option nat)) :=
  o <- get l ;; match o with MonthTotals g => ret g | _ => raise end.

(** Line 31: [df_year = df[df['Year'] == selected_year]]. *)
Definition select_year (df : ref) (y : Z) : M ref :=
  rows <- transactions df ;;
  new (Transactions (df_year rows y)).

(** Lines 42-45: [filtered_df = df_year[mask]]. *)
Definition filter_rows (dfy : ref) (codes months : list string) : M ref :=
  rows <- transactions dfy ;;
  new (Transactions (filtered_df rows codes months)).

(** Lines 31 and 42-45, the filter of a selection. *)
Definition filter_selection (df : ref) (sel : selection) : M ref :=
  dfy <- select_year df (selected_year sel) ;;
  filter_rows dfy (selected_codes sel) (selected_months sel).

(** Lines 58-67.  Line 66 binds the name [pivot] to a new object; line 67
    assigns a column of that object in place. *)
Definition build_pivot (f : ref) (sm : list string) : M ref :=
  rows <- transactions f ;;
  pivot <- new (PivotTable (pivot_table rows 0)) ;;
  p <- pivot_at pivot ;;
  pivot <- new (PivotTable (reindex p sm 0)) ;;
  p <- pivot_at pivot ;;
  put pivot (PivotTable (setitem p "Total" (sum_axis1 p))) ;;;
  ret pivot.

(** Lines 72-74.  Line 73 assigns the column ['Month_Num'] in place;
    line 74 binds the name to the sorted copy. *)
Definition build_monthly_totals (f : ref) (mm : gmap string nat) : M ref :=
  rows <- transactions f ;;
  monthly <- new (GroupTotals (groupby_sum Month rows)) ;;
  g <- group_totals monthly ;;
  put monthly (MonthTotals (with_month_num mm g)) ;;;
  g <- month_totals monthly ;;
  new (MonthTotals (sort_values g)).

(** Line 89. *)
Definition build_code_totals (f : ref) : M ref :=
  rows <- transactions f ;;
  new (GroupTotals (groupby_sum Account_Code rows)).

(** What one pass leaves behind: the metrics, and the names bound to the
    frames it built. *)
Record outputs := {
  o_filtered_df : ref;
  o_total_transactions : nat;
  o_total_amount : Z;
  o_avg_per_transaction : float_value;
  o_pivot : ref;
  o_monthly_totals : ref;
  o_code_totals : ref
}.

(** Lines 31-97, from the cleaned frame [df] and the widgets' values. *)
Definition run (df : ref) (sel : selection) : M outputs :=
  dfy <- select_year df (selected_year sel) ;;
  rows_y <- transactions dfy ;;
  let mm := month_map rows_y in
  sm <- lift (sorted_months rows_y) ;;
  f <- filter_rows dfy (selected_codes sel) (selected_months sel) ;;
  rows <- transactions f ;;
  pivot <- build_pivot f sm ;;
  monthly <- build_monthly_totals f mm ;;
  codes <- build_code_totals f ;;
  ret {| o_filtered_df := f;
         o_total_transactions := total_transactions rows;
         o_total_amount := total_amount rows;
         o_avg_per_transaction := avg_per_transaction rows;
         o_pivot := pivot;
         o_monthly_totals := monthly;
         o_code_totals := codes |}.

(** The results as the page shows them: the metrics and the contents of
    the frames the names are bound to. *)
Record report := {
  r_filtered_df : list row;
  r_total_transactions : nat;
  r_total_amount : Z;
  r_avg_per_transaction : float_value;
  r_pivot : pivot_frame;
  r_monthly_totals : list (string * Z * option nat);
  r_code_totals : list (string * Z)
}.

Definition view (o : outputs) : M report :=
  rows <- transactions (o_filtered_df o) ;;
  p <- pivot_at (o_pivot o) ;;
  mt <- month_totals (o_monthly_totals o) ;;
  ct <- group_totals (o_code_totals o) ;;
  ret {| r_filtered_df := rows;
         r_total_transactions := o_total_transactions o;
         r_total_amount := o_total_amount o;
         r_avg_per_transaction := o_avg_per_transaction o;
         r_pivot := p;
         r_monthly_totals := mt;
         r_code_totals := ct |}.

End Script.

(** ** The pass in closed form (used to state the properties) *)

(** The report of one pass over the cleaned rows, by the pure operations. *)
Definition expected_report (rows : list row) (sel : selection) : Script.report :=
  let dfy := df_year rows (selected_year sel) in
  let f := filtered rows sel in
  {| Script.r_filtered_df := f;
     Script.r_total_transactions := total_transactions f;
     Script.r_total_amount := total_amount f;
     Script.r_avg_per_transaction := avg_per_transaction f;
     Script.r_pivot := pivot f (map month_abbr (months_of dfy));
     Script.r_monthly_totals := monthly_totals f (month_map dfy);
     Script.r_code_totals := code_totals f |}.

(** The frames one pass builds, in the order it builds them. *)
Definition frames_built (rows : list row) (sel : selection) : list Script.frame :=
  let dfy := df_year rows (selected_year sel) in
  let f := filtered rows sel in
  [ Script.Transactions dfy;
    Script.Transactions f;
    Script.PivotTable (pivot_table f 0);
    Script.PivotTable (pivot f (map month_abbr (months_of dfy)));
    Script.MonthTotals (with_month_num (month_map dfy) (groupby_sum Month f));
    Script.MonthTotals (monthly_totals f (month_map dfy));
    Script.GroupTotals (code_totals f) ].

(** The names a pass binds when it starts on a heap of [n] frames. *)
Definition names_bound (n : nat) (rows : list row) (sel : selection) : Script.outputs :=
  let f := filtered rows sel in
  {| Script.o_filtered_df := (n + 1)%nat;
     Script.o_total_transactions := total_transactions f;
     Script.o_total_amount := total_amount f;
     Script.o_avg_per_transaction := avg_per_transaction f;
     Script.o_pivot := (n + 3)%nat;
     Script.o_monthly_totals := (n + 5)%nat;
     Script.o_code_totals := (n + 6)%nat |}.

(** ** The defaults of the widgets *)

(** Lines 34 and 39: both multiselects start with every option selected
    ([default=account_codes], [default=sorted_months]); this is what they
    return for the year [y] while the user has not touched them. *)
Definition default_selection (df : list row) (y : Z) : option selection :=
  sm ← sorted_months (df_year df y);
  Some {| selected_year := y;
          selected_codes := account_codes (df_year df y);
          selected_months := sm |}.

(** The report of an empty subset. *)
Definition empty_report : Script.report :=
  {| Script.r_filtered_df := [];
     Script.r_total_transactions := 0;
     Script.r_total_amount := 0;
     Script.r_avg_per_transaction := NaN;
     Script.r_pivot := {| index := []; columns := [("Total", [])] |};
     Script.r_monthly_totals := [];
     Script.r_code_totals := [] |}.

(** ** The text of the count (line 50) *)

(** The decimal digits of a number. *)
Definition digits (n : nat) : list ascii :=
  list_ascii_of_string (DecimalString.NilZero.string_of_uint (Nat.to_uint n)).

(** A comma after every third digit, on the digits from the right. *)
Fixpoint commas_rev (ds : list ascii) : list ascii :=
  match ds with
  | a :: ds1 =>
      match ds1 with
      | b :: ds2 =>
          match ds2 with
          | c :: ds3 =>
              match ds3 with
              | [] => ds
              | _ :: _ => a :: b :: c :: ","%char :: commas_rev ds3
              end
          | [] => ds
          end
      | [] => ds
      end
  | [] => []
  end.

(** [f"{n:,}"]: the digits in groups of three from the right, the groups
    separated by commas. *)
Definition format_count (n : nat) : string :=
  string_of_list_ascii (rev (commas_rev (rev (digits n)))).

(** Line 50: the text of the first metric. *)
Definition total_transactions_text (f : list row) : string :=
  format_count (total_transactions f).

(** A character other than the comma. *)
Definition not_comma (c : ascii) : bool := negb (Ascii.eqb c ","%char).

(** The text without its commas. *)
Definition without_commas (s : string) : string :=
  string_of_list_ascii (List.filter not_comma (list_ascii_of_string s)).

(** ** The arithmetic of the amount column *)

(** The sections above say which amounts the script adds; this one says how
    it adds them.  [read_excel] gives the column ['Base Amount'] one dtype
    for all its rows: int64 when every amount cell of the sheet holds an
    integer, float64 as soon as one amount cell is empty (or has decimals,
    which the cells of this model do not).  The rows dropped by line 18
    have decided the dtype before they go.  A dtype stores a cell as a
    number of its own and adds with its own addition. *)
Record dtype := {
  num : Type;
  of_cell : Z → num;
  zero : num;
  add : num → num → num
}.

(** int64: two's complement on 64 bits; an addition that leaves the range
    wraps around.  (A cell outside the range cannot stand in an int64
    column; [of_cell] wraps it only to be total.) *)
Definition wrap64 (z : Z) : Z := (z + 2 ^ 63) mod 2 ^ 64 - 2 ^ 63.

Definition int64 : dtype :=
  {| num := Z; of_cell := wrap64; zero := 0; add := fun a b => wrap64 (a + b) |}.

(** float64: IEEE 754 binary64; a cell is stored as the nearest float (for
    a magnitude below 2^63) and every addition is rounded to nearest. *)
Definition float_of_cell (z : Z) : PrimFloat.float :=
  match z with
  | Z0 => PrimFloat.zero
  | Zpos p => PrimFloat.of_uint63 (Uint63.of_Z (Zpos p))
  | Zneg p => PrimFloat.opp (PrimFloat.of_uint63 (Uint63.of_Z (Zpos p)))
  end.

Definition float64 : dtype :=
  {| num := PrimFloat.float; of_cell := float_of_cell;
     zero := PrimFloat.zero; add := PrimFloat.add |}.

(** The dtype [read_excel] gives the amounts of a sheet of integer cells. *)
Definition amount_dtype (sheet : list raw_row) : dtype :=
  if existsb (isna col_Base_Amount) sheet then float64 else int64.

(** The additions of a dtype are exact when adding two stored cells gives
    the stored sum of the cells. *)
Definition exact (d : dtype) : Prop :=
  of_cell d 0 = zero d ∧
  ∀ a b, add d (of_cell d a) (of_cell d b) = of_cell d (a + b).

(** The operations of the script on the amounts as the dtype [d] stores
    and adds them.  A sum accumulates from zero in row order (across the
    columns, for a row sum, in column order).  Over exact additions the
    order is immaterial.  On float64 numpy adds a long column pairwise and
    pandas adds a group with a compensated sum; the float64 sums are
    evaluated below only on frames of three rows, amounts 10^16, 1 and
    -10^16, where these give the results of the sum in row order. *)
Module Dtype.
Section operations.
Context (d : dtype).

(** [Series.sum()]. *)
Definition series_sum (l : list (num d)) : num d := foldl (add d) (zero d) l.

(** The column ['Base Amount'] of a frame. *)
Definition amounts (f : list row) : list (num d) :=
  map (fun r => of_cell d (Base_Amount r)) f.

(** Line 51. *)
Definition total_amount (f : list row) : num d := series_sum (amounts f).

(** A numeric frame indexed by account code. *)
Record table := {
  index : list string;
  columns : list (string * list (num d))
}.

(** One cell of the unstacked table. *)
Definition pivot_cell (f : list row) (fill_value : num d) (c m : string) : num d :=
  match group f c m with
  | [] => fill_value
  | g => series_sum (amounts g)
  end.

(** Lines 58-65. *)
Definition pivot_table (f : list row) (fill_value : num d) : table :=
  let idx := sorted_str (unique (map Account_Code f)) in
  let cols := sorted_str (unique (map Month f)) in
  {| index := idx;
     columns := map (fun m => (m, map (fun c => pivot_cell f fill_value c m) idx)) cols |}.

Fixpoint get_column (label : string) (cols : list (string * list (num d)))
  : option (list (num d)) :=
  match cols with
  | [] => None
  | (l, v) :: cols' => if decide (l = label) then Some v else get_column label cols'
  end.

(** Line 66. *)
Definition reindex (p : table) (labels : list string) (fill_value : num d) : table :=
  {| index := index p;
     columns := map (fun l => (l, default (replicate (length (index p)) fill_value)
                                          (get_column l (columns p)))) labels |}.

(** [p.sum(axis=1)]: each row summed across the columns, in column order. *)
Definition sum_axis1 (p : table) : list (num d) :=
  foldl (fun acc col => zip_with (add d) acc col.2)
        (replicate (length (index p)) (zero d)) (columns p).

Fixpoint set_column (label : string) (values : list (num d))
    (cols : list (string * list (num d))) : list (string * list (num d)) :=
  match cols with
  | [] => [(label, values)]
  | (l, v) :: cols' =>
      if decide (l = label) then (l, values) :: cols'
      else (l, v) :: set_column label values cols'
  end.

Definition setitem (p : table) (label : string) (values : list (num d)) : table :=
  {| index := index p; columns := set_column label values (columns p) |}.

(** Lines 58-67; the [fill_value=0] of both calls is the zero of the dtype. *)
Definition pivot (f : list row) (sm : list string) : table :=
  let p := reindex (pivot_table f (zero d)) sm (zero d) in
  setitem p "Total" (sum_axis1 p).

(** [p.loc[c, m]]. *)
Definition loc (p : table) (c m : string) : option (num d) :=
  i ← list_find (fun x => x = c) (index p);
  v ← get_column m (columns p);
  v !! i.1.

(** [f.groupby(key).agg({'Base Amount': 'sum'}).reset_index()]. *)
Definition groupby_sum (key : row → string) (f : list row) : list (string * num d) :=
  map (fun k => (k, series_sum (amounts (List.filter (fun r => bool_decide (key r = k)) f))))
      (sorted_str (unique (map key f))).

Definition with_month_num (mm : gmap string nat) (g : list (string * num d))
  : list (string * num d * option nat) :=
  map (fun kv => (kv.1, kv.2, mm !! kv.1)) g.

(** Ascending order of ['Month_Num'], NaN last. *)
Definition num_le (a b : string * num d * option nat) : Prop :=
  match a.2, b.2 with
  | Some x, Some y => (x ≤ y)%nat
  | _, None => True
  | None, Some _ => False
  end.

Global Instance num_le_dec a b : Decision (num_le a b).
Proof. unfold num_le. destruct (a.2), (b.2); apply _. Defined.

(** Lines 72-74. *)
Definition monthly_totals (f : list row) (mm : gmap string nat)
  : list (string * num d * option nat) :=
  merge_sort num_le (with_month_num mm (groupby_sum Month f)).

(** Line 89. *)
Definition code_totals (f : list row) : list (string * num d) :=
  groupby_sum Account_Code f.

(** The amount of one (account code, month) group, as the dtype adds it. *)
Definition cell (f : list row) (c m : string) : num d :=
  series_sum (amounts (group f c m)).

End operations.
End Dtype.


(** The claim on the two chart series, as the specification states it, for
    the amounts of dtype [d]: the monthly totals, the code totals and the
    total amount are the same sum. *)
Definition group_totals_conserve_total (d : dtype) (df : list row) (sel : selection) : Prop :=
  let f := filtered df sel in
  let mm := month_map (df_year df (selected_year sel)) in
  Dtype.series_sum d (map (fun x => x.1.2) (Dtype.monthly_totals d f mm)) = Dtype.total_amount d f ∧
  Dtype.series_sum d (map snd (Dtype.code_totals d f)) = Dtype.total_amount d f.

(** ** Sample data *)

(** A sheet of 2024 with two account codes over two months. *)
Definition jan_5 : date := {| d_year := 2024; d_month := January; d_day := 5 |}.
Definition jan_20 : date := {| d_year := 2024; d_month := January; d_day := 20 |}.
Definition feb_1 : date := {| d_year := 2024; d_month := February; d_day := 1 |}.

Definition sample_df : list row :=
  [ {| Transaction_Date := jan_5; Account_Code := "A100"; Base_Amount := 100 |};
    {| Transaction_Date := jan_20; Account_Code := "A100"; Base_Amount := 50 |};
    {| Transaction_Date := feb_1; Account_Code := "B200"; Base_Amount := 200 |} ].

(** No account code selected. *)
Definition no_codes : selection :=
  {| selected_year := 2024; selected_codes := []; selected_months := ["Jan"; "Feb"] |}.

(** All account codes, January only. *)
Definition only_jan : selection :=
  {| selected_year := 2024; selected_codes := ["A100"; "B200"]; selected_months := ["Jan"] |}.

(** A year whose first row is of February, then April, then January. *)
Definition unordered_df : list row :=
  [ {| Transaction_Date := feb_1; Account_Code := "B200"; Base_Amount := 200 |};
    {| Transaction_Date := {| d_year := 2024; d_month := April; d_day := 9 |};
       Account_Code := "A100"; Base_Amount := 7 |};
    {| Transaction_Date := jan_5; Account_Code := "A100"; Base_Amount := 100 |};
    {| Transaction_Date := jan_20; Account_Code := "A100"; Base_Amount := -100 |} ].

Definition everything : selection :=
  {| selected_year := 2024;
     selected_codes := ["A100"; "B200"];
     selected_months := ["Jan"; "Feb"; "Apr"] |}.

(** Both codes and both months of [sample_df]. *)
Definition jan_feb : selection :=
  {| selected_year := 2024;
     selected_codes := ["A100"; "B200"];
     selected_months := ["Jan"; "Feb"] |}.

(** A year with no row in [sample_df]. *)
Definition year_1999 : selection :=
  {| selected_year := 1999; selected_codes := ["A100"]; selected_months := ["Jan"] |}.

(** Three January rows of 2024 whose amounts cancel around a small one, in
    a sheet whose fourth row has no amount. *)
Definition rounding_sheet : list raw_row :=
  [ {| raw_date := Some jan_5; raw_code := Some "A100"; raw_amount := Some (10 ^ 16) |};
    {| raw_date := Some jan_20; raw_code := Some "B200"; raw_amount := Some 1 |};
    {| raw_date := Some jan_20; raw_code := Some "A100"; raw_amount := Some (- 10 ^ 16) |};
    {| raw_date := Some feb_1; raw_code := Some "B200"; raw_amount := None |} ].

(** The cleaned frame of [rounding_sheet]. *)
Definition rounding_df : list row :=
  [ {| Transaction_Date := jan_5; Account_Code := "A100"; Base_Amount := 10 ^ 16 |};
    {| Transaction_Date := jan_20; Account_Code := "B200"; Base_Amount := 1 |};
    {| Transaction_Date := jan_20; Account_Code := "A100"; Base_Amount := - 10 ^ 16 |} ].

(** One account code whose large amounts of January cancel, with a small
    amount in February between them. *)
Definition cancelling_df : list row :=
  [ {| Transaction_Date := jan_5; Account_Code := "A100"; Base_Amount := 10 ^ 16 |};
    {| Transaction_Date := feb_1; Account_Code := "A100"; Base_Amount := 1 |};
    {| Transaction_Date := jan_20; Account_Code := "A100"; Base_Amount := - 10 ^ 16 |} ].

Definition a100_jan_feb : selection :=
  {| selected_year := 2024; selected_codes := ["A100"]; selected_months := ["Jan"; "Feb"] |}.

(** * Properties *)

(** ** The order on strings is a total order *)

Lemma str_lt_trans a b c : str_lt a b → str_lt b c → str_lt a c.
Proof.
  unfold str_lt, String.ltb. intros Hab Hbc.
  destruct (String.compare a b) eqn:E1; try discriminate.
  destruct (String.compare b c) eqn:E2; try discriminate.
  apply OrderedTypeEx.String_as_OT.cmp_lt in E1, E2.
  pose proof (OrderedTypeEx.String_as_OT.lt_trans _ _ _ E1 E2) as E3.
  apply OrderedTypeEx.String_as_OT.cmp_lt in E3.
  unfold OrderedTypeEx.String_as_OT.cmp in E3. by rewrite E3.
Qed.

Lemma str_lt_irrefl a : ¬ str_lt a a.
Proof.
  unfold str_lt, String.ltb. intros H.
  pose proof (String.compare_antisym a a) as Ha.
  destruct (String.compare a a); simpl in Ha; discriminate.
Qed.

Lemma str_le_iff a b : str_le a b ↔ str_lt a b ∨ a = b.
Proof.
  unfold str_le, str_lt, String.leb, String.ltb. split.
  - destruct (String.compare a b) eqn:E; intros H; try discriminate; [right|by left].
    by apply String.compare_eq_iff.
  - intros [H| ->].
    + by destruct (String.compare a b).
    + pose proof (String.compare_antisym b b) as Hb.
      by destruct (String.compare b b).
Qed.

Global Instance str_le_trans : Transitive str_le.
Proof.
  intros a b c [Hab| ->]%str_le_iff [Hbc| ->]%str_le_iff; apply str_le_iff; auto.
  left. by eapply str_lt_trans.
Qed.

Global Instance str_le_total : Total str_le.
Proof. intros a b. apply String.leb_total. Qed.

Global Instance str_le_antisymm : AntiSymm (=) str_le.
Proof. intros a b. apply String.leb_antisym. Qed.

(** ** Distinct values and sorting *)

Lemma elem_of_filter_bool {A} (P : A → bool) (l : list A) (x : A) :
  x ∈ List.filter P l ↔ x ∈ l ∧ P x = true.
Proof. rewrite !list_elem_of_In. apply filter_In. Qed.

Lemma NoDup_filter_bool {A} (P : A → bool) (l : list A) :
  NoDup l → NoDup (List.filter P l).
Proof. rewrite !NoDup_ListNoDup. apply List.NoDup_filter. Qed.

(** Filtering keeps the order of the rows. *)
Lemma filter_sublist {A} (P : A → bool) (l : list A) : List.filter P l `sublist_of` l.
Proof.
  induction l as [|x l IH]; simpl; [constructor|].
  destruct (P x); by constructor.
Qed.

Lemma filter_bool_nil {A} (P : A → bool) (l : list A) :
  (∀ x, x ∈ l → P x = false) → List.filter P l = [].
Proof.
  induction l as [|x l IH]; intros H; simpl; [done|].
  rewrite H by left. apply IH. intros y Hy. apply H. by right.
Qed.

Section unique.
Context {A : Type} `{EqDecision A}.

Lemma elem_of_unique (l : list A) (x : A) : x ∈ unique l ↔ x ∈ l.
Proof.
  induction l as [|y l IH]; simpl; [done|].
  rewrite !elem_of_cons, elem_of_filter_bool, IH.
  destruct (decide (x = y)) as [->|Hne]; [tauto|].
  rewrite negb_true_iff, bool_decide_eq_false. tauto.
Qed.

Lemma NoDup_unique (l : list A) : NoDup (unique l).
Proof.
  induction l as [|y l IH]; simpl; constructor.
  - rewrite elem_of_filter_bool, negb_true_iff, bool_decide_eq_false. tauto.
  - by apply NoDup_filter_bool.
Qed.
End unique.

Lemma sorted_str_perm l : sorted_str l ≡ₚ l.
Proof. apply merge_sort_Permutation. Qed.

Lemma elem_of_sorted_str l x : x ∈ sorted_str l ↔ x ∈ l.
Proof. by rewrite sorted_str_perm. Qed.

Lemma sorted_str_sorted l : StronglySorted str_le (sorted_str l).
Proof. apply (StronglySorted_merge_sort _). Qed.

(** A sorted list without repetition is strictly increasing. *)
Lemma StronglySorted_strict l :
  NoDup l → StronglySorted str_le l → StronglySorted str_lt l.
Proof.
  intros Hnd Hs. induction Hs as [|x l Hs IH Hx]; constructor.
  - apply IH. by eapply NoDup_cons_1_2.
  - apply NoDup_cons in Hnd as [Hnin _].
    apply Forall_forall. intros y Hy.
    destruct (proj1 (str_le_iff x y)) as [?| ->]; [|done|done].
    rewrite Forall_forall in Hx. by apply Hx.
Qed.

Lemma sorted_unique_strict l : StronglySorted str_lt (sorted_str (unique l)).
Proof.
  apply StronglySorted_strict; [|apply sorted_str_sorted].
  rewrite sorted_str_perm. apply NoDup_unique.
Qed.

(** ** Cleaning (C7) *)

Lemma elem_of_dropna_required sheet r :
  r ∈ dropna required sheet ↔ r ∈ sheet ∧ complete r.
Proof.
  unfold dropna, complete. rewrite elem_of_filter_bool. simpl.
  destruct r as [[d|] [c|] [a|]]; simpl;
    rewrite ?andb_true_r, ?andb_false_r, ?andb_false_l;
    split; intros [Hin H]; split; try done;
    repeat match goal with
           | H : _ ∧ _ |- _ => destruct H
           | H : is_Some None |- _ => by destruct H
           | |- _ ∧ _ => split
           | |- is_Some (Some _) => by eexists
           end.
Qed.

Lemma typed_untyped r : typed (untyped r) = Some r.
Proof. by destruct r. Qed.

Lemma typed_complete r : complete r → ∃ t, typed r = Some t ∧ untyped t = r.
Proof.
  destruct r as [d c a]. intros ([d' ?] & [c' ?] & [a' ?]); simpl in *; subst.
  by eexists.
Qed.

Lemma mapM_typed_complete l :
  Forall complete l → ∃ df, mapM typed l = Some df ∧ map untyped df = l.
Proof.
  induction 1 as [|r l Hr _ (df & Hdf & Hl)].
  - by exists [].
  - destruct (typed_complete r Hr) as (t & Ht & Hu).
    exists (t :: df). simpl. rewrite Ht, Hdf. simpl. by rewrite Hu, Hl.
Qed.

(** C7. Loading never fails, whatever cells are missing; the rows that
    enter the computation are exactly the rows of the sheet in which the
    transaction date, the account code and the base amount are all
    present, in sheet order; every row missing one of the three is dropped,
    and none is reported. *)
Theorem load_drops_incomplete_rows (sheet : list raw_row) :
  ∃ df, load sheet = Some df ∧
        map untyped df = dropna required sheet ∧
        dropna required sheet `sublist_of` sheet ∧
        ∀ r, r ∈ dropna required sheet ↔ r ∈ sheet ∧ complete r.
Proof.
  destruct (mapM_typed_complete (dropna required sheet)) as (df & Hdf & Hu).
  { apply Forall_forall. intros r Hr. by apply elem_of_dropna_required in Hr as [_ ?]. }
  exists df. split_and!; [done|done|apply filter_sublist|apply elem_of_dropna_required].
Qed.

(** ** The filter (pure part of C4) *)

Lemma elem_of_df_year df y r : r ∈ df_year df y ↔ r ∈ df ∧ Year r = y.
Proof. unfold df_year. by rewrite elem_of_filter_bool, bool_decide_eq_true. Qed.

Lemma elem_of_filtered_df dfy codes months r :
  r ∈ filtered_df dfy codes months ↔
  r ∈ dfy ∧ Account_Code r ∈ codes ∧ Month r ∈ months.
Proof.
  unfold filtered_df, isin.
  by rewrite elem_of_filter_bool, andb_true_iff, !bool_decide_eq_true.
Qed.

Lemma filtered_df_sublist_year dfy codes months :
  filtered_df dfy codes months `sublist_of` dfy.
Proof. apply filter_sublist. Qed.

Lemma df_year_sublist df y : df_year df y `sublist_of` df.
Proof. apply filter_sublist. Qed.

(** ** Sums over groups *)

Lemma series_sum_app l1 l2 : series_sum (l1 ++ l2) = series_sum l1 + series_sum l2.
Proof. induction l1 as [|x l1 IH]; simpl; [done|]. rewrite IH. lia. Qed.

Lemma series_sum_perm l1 l2 : l1 ≡ₚ l2 → series_sum l1 = series_sum l2.
Proof. induction 1; simpl; lia. Qed.

Lemma series_sum_replicate_0 n : series_sum (replicate n 0) = 0.
Proof. induction n; simpl; lia. Qed.

Lemma series_sum_zip_with_add l1 l2 :
  length l1 = length l2 →
  series_sum (zip_with Z.add l1 l2) = series_sum l1 + series_sum l2.
Proof.
  revert l2. induction l1 as [|x l1 IH]; intros [|y l2] Hlen; simpl in *; try done.
  rewrite IH by lia. lia.
Qed.

Lemma series_sum_map_add {A} (F G : A → Z) l :
  series_sum (map (fun x => F x + G x) l) = series_sum (map F l) + series_sum (map G l).
Proof. induction l as [|x l IH]; simpl; [done|]. rewrite IH. lia. Qed.

Lemma series_sum_map_0 {A} (F : A → Z) l :
  (∀ x, x ∈ l → F x = 0) → series_sum (map F l) = 0.
Proof.
  induction l as [|x l IH]; simpl; intros H; [done|].
  rewrite H, IH; [done| |left]. intros y Hy. apply H. by right.
Qed.

(** Among distinct keys, exactly one selects a given row. *)
Lemma sum_indicator (ks : list string) (k : string) (a : Z) :
  NoDup ks → k ∈ ks →
  series_sum (map (fun k' => if bool_decide (k = k') then a else 0) ks) = a.
Proof.
  induction 1 as [|k0 ks Hnin Hnd IH]; intros Hin; [by apply elem_of_nil in Hin|].
  simpl. apply elem_of_cons in Hin as [->|Hin].
  - rewrite bool_decide_eq_true_2 by done.
    rewrite series_sum_map_0; [lia|].
    intros k' Hk'. rewrite bool_decide_eq_false_2; [done|]. by intros ->.
  - rewrite bool_decide_eq_false_2 by (by intros ->). rewrite IH by done. lia.
Qed.

(** Grouping conserves the sum: over a list of distinct keys that covers
    the keys of the rows, the group sums add up to the sum of all rows. *)
Lemma sum_over_groups (key : row → string) (P : row → bool) (ks : list string) (f : list row) :
  NoDup ks → (∀ r, r ∈ f → P r = true → key r ∈ ks) →
  series_sum (map (fun k => amount_where (fun r => bool_decide (key r = k) && P r) f) ks)
  = amount_where P f.
Proof.
  intros Hnd. unfold amount_where.
  induction f as [|r f IH]; intros Hcover; simpl.
  - by apply series_sum_map_0.
  - assert (IH' := IH (fun r' Hr' => Hcover r' (list_elem_of_further _ _ _ Hr'))).
    destruct (P r) eqn:HP; simpl.
    + rewrite <- IH'.
      rewrite <- (sum_indicator ks (key r) (Base_Amount r) Hnd) at 1
        by (apply Hcover; [left|done]).
      rewrite <- series_sum_map_add. f_equal. apply map_ext. intros k.
      rewrite andb_true_r. by case_bool_decide.
    + rewrite <- IH'. f_equal. apply map_ext. intros k. by rewrite andb_false_r.
Qed.

Lemma amount_where_true f : amount_where (fun _ => true) f = total_amount f.
Proof.
  unfold amount_where, total_amount. f_equal. f_equal.
  induction f; simpl; congruence.
Qed.

Lemma amount_where_ext P Q f :
  (∀ r, r ∈ f → P r = Q r) → amount_where P f = amount_where Q f.
Proof.
  intros H. unfold amount_where. f_equal. f_equal.
  apply filter_ext_in. intros r Hr. apply H. by apply list_elem_of_In.
Qed.

(** The values of a grouped frame add up to the total of the frame. *)
Lemma groupby_sum_total (key : row → string) f :
  series_sum (map snd (groupby_sum key f)) = total_amount f.
Proof.
  unfold groupby_sum. rewrite map_map. simpl.
  rewrite <- amount_where_true.
  rewrite <- (sum_over_groups key (fun _ => true) (sorted_str (unique (map key f)))).
  - f_equal. apply map_ext. intros k. apply amount_where_ext.
    intros r _. by rewrite andb_true_r.
  - rewrite sorted_str_perm. apply NoDup_unique.
  - intros r Hr _. apply elem_of_sorted_str, elem_of_unique.
    apply list_elem_of_fmap. by exists r.
Qed.

(** ** Month labels and calendar order *)

Global Instance month_abbr_inj : Inj (=) (=) month_abbr.
Proof. intros a b H. destruct a, b; simpl in H; first [done | discriminate H]. Qed.

Global Instance month_number_inj : Inj (=) (=) month_number.
Proof. intros a b H. destruct a, b; simpl in H; first [done | discriminate H]. Qed.

Lemma Month_row_month r : Month r = month_abbr (row_month r).
Proof. done. Qed.

Lemma Month_Num_row_month r : Month_Num r = month_number (row_month r).
Proof. done. Qed.

Lemma calendar_sorted : StronglySorted calendar_lt calendar.
Proof. unfold calendar, calendar_lt. repeat constructor; simpl; lia. Qed.

Lemma calendar_NoDup : NoDup calendar.
Proof.
  unfold calendar.
  repeat (apply NoDup_cons_2;
          [rewrite ?elem_of_cons, ?elem_of_nil; intuition discriminate|]).
  apply NoDup_nil_2.
Qed.

Lemma elem_of_calendar mo : mo ∈ calendar.
Proof. unfold calendar. destruct mo; repeat constructor. Qed.

Lemma StronglySorted_filter_bool {A} (R : relation A) (P : A → bool) l :
  StronglySorted R l → StronglySorted R (List.filter P l).
Proof.
  induction 1 as [|x l Hs IH Hx]; simpl; [constructor|].
  destruct (P x); [|done]. constructor; [done|].
  apply Forall_forall. intros y [Hy _]%elem_of_filter_bool.
  rewrite Forall_forall in Hx. by apply Hx.
Qed.

Lemma elem_of_months_of f mo : mo ∈ months_of f ↔ ∃ r, r ∈ f ∧ row_month r = mo.
Proof.
  unfold months_of. rewrite elem_of_filter_bool, bool_decide_eq_true.
  change (map row_month f) with (row_month <$> f). rewrite list_elem_of_fmap.
  split.
  - intros [_ (r & -> & Hr)]. by exists r.
  - intros (r & Hr & <-). split; [apply elem_of_calendar|by exists r].
Qed.

Lemma months_of_sorted f : StronglySorted calendar_lt (months_of f).
Proof. apply StronglySorted_filter_bool, calendar_sorted. Qed.

Lemma months_of_NoDup f : NoDup (months_of f).
Proof. unfold months_of. apply NoDup_filter_bool, calendar_NoDup. Qed.

(** The labels of the months of a frame are the labels of its rows. *)
Lemma elem_of_month_labels f m :
  m ∈ map month_abbr (months_of f) ↔ m ∈ map Month f.
Proof.
  change (map month_abbr (months_of f)) with (month_abbr <$> months_of f).
  change (map Month f) with (Month <$> f).
  rewrite !list_elem_of_fmap. split.
  - intros (mo & -> & (r & Hr & <-)%elem_of_months_of). by exists r.
  - intros (r & -> & Hr). exists (row_month r). split; [done|].
    apply elem_of_months_of. by exists r.
Qed.

(** Sorting by month number puts any arrangement of the images of distinct
    months into calendar order. *)
Lemma merge_sort_calendar {B} (R : relation B) `{∀ x y, Decision (R x y)}
    `{!Transitive R, !Total R} (G : calendar_month → B) (ms : list calendar_month) (l : list B) :
  (∀ a b, R (G a) (G b) ↔ (month_number a ≤ month_number b)%nat) →
  StronglySorted calendar_lt ms →
  l ≡ₚ map G ms →
  merge_sort R l = map G ms.
Proof.
  intros HR Hms Hperm. symmetry.
  apply (StronglySorted_unique_strong R).
  - intros x1 x2.
    rewrite merge_sort_Permutation, Hperm.
    change (map G ms) with (G <$> ms). rewrite !list_elem_of_fmap.
    intros (a & -> & _) (b & -> & _) H1 H2.
    apply HR in H1, H2. f_equal. apply (inj month_number). lia.
  - change (map G ms) with (G <$> ms).
    apply (StronglySorted_fmap _ calendar_lt); [|done].
    intros a b Hab. apply HR. unfold calendar_lt in Hab. lia.
  - by apply StronglySorted_merge_sort.
  - by rewrite merge_sort_Permutation.
Qed.

(** ** The month dictionary and the month options *)

Lemma zip_map {A B C} (F : A → B) (G : A → C) (l : list A) :
  zip (map F l) (map G l) = map (fun x => (F x, G x)) l.
Proof. induction l; simpl; congruence. Qed.

Lemma dict_snoc pairs kv : dict (pairs ++ [kv]) = <[kv.1 := kv.2]> (dict pairs).
Proof. unfold dict. by rewrite foldl_app. Qed.

(** The dictionary maps the label of each month of the frame to the number
    of that month, and no other label. *)
Lemma month_map_lookup dfy k n :
  month_map dfy !! k = Some n ↔ ∃ r, r ∈ dfy ∧ Month r = k ∧ Month_Num r = n.
Proof.
  unfold month_map. rewrite zip_map.
  induction dfy as [|r dfy IH] using rev_ind.
  - simpl. unfold dict. simpl. rewrite lookup_empty. split; [done|].
    by intros (r & ?%elem_of_nil & _).
  - rewrite map_app. simpl. rewrite dict_snoc. simpl.
    destruct (decide (Month r = k)) as [Hk|Hk].
    + rewrite Hk, lookup_insert_eq. split.
      * intros [= <-]. exists r. rewrite elem_of_app, list_elem_of_singleton. auto.
      * intros (r' & _ & Hk' & <-). f_equal.
        rewrite !Month_Num_row_month. f_equal.
        apply (inj month_abbr). rewrite <- !Month_row_month. congruence.
    + rewrite lookup_insert_ne by done. rewrite IH. split.
      * intros (r' & Hr' & ?). exists r'. rewrite elem_of_app. auto.
      * intros (r' & [Hr'| ->%list_elem_of_singleton]%elem_of_app & Hk' & Hn);
          [by exists r'|done].
Qed.

Lemma month_map_lookup_row dfy r :
  r ∈ dfy → month_map dfy !! Month r = Some (Month_Num r).
Proof. intros Hr. apply month_map_lookup. by exists r. Qed.

Lemma month_map_lookup_abbr dfy mo :
  mo ∈ months_of dfy → month_map dfy !! month_abbr mo = Some (month_number mo).
Proof. intros (r & Hr & <-)%elem_of_months_of. by apply month_map_lookup_row. Qed.

Global Instance key_le_trans {A} : Transitive (@key_le A).
Proof. unfold key_le. intros a b c. lia. Qed.

Global Instance key_le_total {A} : Total (@key_le A).
Proof. unfold key_le. intros a b. lia. Qed.

Global Instance num_le_trans : Transitive num_le.
Proof.
  unfold num_le. intros [a [x|]] [b [y|]] [c [z|]]; simpl; try done. lia.
Qed.

Global Instance num_le_total : Total num_le.
Proof. unfold num_le. intros [a [x|]] [b [y|]]; simpl; auto. lia. Qed.

Lemma mapM_default {A B} (F : A → option B) (d : B) (l : list A) :
  (∀ x, x ∈ l → is_Some (F x)) →
  mapM F l = Some (map (fun x => default d (F x)) l).
Proof.
  induction l as [|x l IH]; intros H; simpl; [done|].
  destruct (H x) as [y Hy]; [left|]. rewrite Hy. simpl.
  rewrite IH; [done|]. intros z Hz. apply H. by right.
Qed.

Lemma zip_map_r {A B} (G : A → B) (l : list A) :
  zip l (map G l) = map (fun x => (x, G x)) l.
Proof. induction l; simpl; congruence. Qed.

(** The distinct month labels of a frame, in any order, are the labels of
    its months. *)
Lemma unique_months_perm f : unique (map Month f) ≡ₚ map month_abbr (months_of f).
Proof.
  apply NoDup_Permutation.
  - apply NoDup_unique.
  - change (map month_abbr (months_of f)) with (month_abbr <$> months_of f).
    apply (NoDup_fmap_2 _), months_of_NoDup.
  - intros m. by rewrite elem_of_unique, elem_of_month_labels.
Qed.

(** Line 38 never raises, and [sorted_months] is the list of the labels of
    the months of the year's frame in calendar order. *)
Lemma sorted_months_spec dfy :
  sorted_months dfy = Some (map month_abbr (months_of dfy)).
Proof.
  unfold sorted_months, sorted_by_map, month_options.
  rewrite (mapM_default _ 0%nat).
  2:{ intros m (mo & -> & Hmo)%elem_of_unique%elem_of_month_labels%list_elem_of_fmap.
      rewrite (month_map_lookup_abbr _ _ Hmo). by eexists. }
  simpl. f_equal. rewrite zip_map_r.
  rewrite (merge_sort_calendar key_le
             (fun mo => (month_abbr mo, month_number mo)) (months_of dfy)).
  - rewrite map_map. done.
  - done.
  - apply months_of_sorted.
  - rewrite unique_months_perm, map_map. apply Permutation_refl'.
    apply map_ext_in. intros mo Hmo%list_elem_of_In.
    by rewrite (month_map_lookup_abbr _ _ Hmo).
Qed.

(** Lines 72-74 on a frame whose month labels the dictionary knows: one
    entry per month of the frame, in calendar order, each with the label,
    the summed amount of the month and the month number. *)
Lemma monthly_totals_spec f mm :
  (∀ r, r ∈ f → mm !! Month r = Some (Month_Num r)) →
  monthly_totals f mm =
  map (fun mo => (month_abbr mo,
                  amount_where (fun r => bool_decide (Month r = month_abbr mo)) f,
                  Some (month_number mo)))
      (months_of f).
Proof.
  intros Hmm. unfold monthly_totals, sort_values, with_month_num, groupby_sum.
  rewrite map_map. simpl.
  apply (merge_sort_calendar num_le).
  - intros a b. unfold num_le. done.
  - apply months_of_sorted.
  - rewrite sorted_str_perm, unique_months_perm, map_map. apply Permutation_refl'.
    apply map_ext_in. intros mo (r & Hr & <-)%list_elem_of_In%elem_of_months_of.
    rewrite <- Month_row_month, Hmm by done. done.
Qed.

(** ** The pivot table in closed form *)

(** With [fill_value=0] a missing group and an empty sum agree. *)
Lemma pivot_cell_0 f c m : pivot_cell f 0 c m = cell_amount f c m.
Proof.
  unfold pivot_cell, cell_amount, amount_where, group.
  by destruct (List.filter _ f).
Qed.

Lemma cell_amount_no_row f c m :
  (∀ r, r ∈ f → Account_Code r = c → Month r ≠ m) → cell_amount f c m = 0.
Proof.
  intros H. unfold cell_amount, amount_where.
  rewrite filter_bool_nil; [done|]. intros r Hr.
  apply andb_false_iff. destruct (decide (Account_Code r = c)) as [Hc|Hc].
  - right. apply bool_decide_eq_false. by apply H.
  - left. by apply bool_decide_eq_false.
Qed.

Lemma get_column_map (F : string → list Z) (ks : list string) (m : string) :
  get_column m (map (fun k => (k, F k)) ks) = if decide (m ∈ ks) then Some (F m) else None.
Proof.
  induction ks as [|k ks IH]; simpl.
  - destruct (decide (m ∈ [])) as [H|H]; [by apply elem_of_nil in H|done].
  - destruct (decide (k = m)) as [->|Hne].
    + destruct (decide (m ∈ m :: ks)) as [|H]; [done|]. exfalso. apply H. by left.
    + rewrite IH.
      destruct (decide (m ∈ ks)) as [H|H], (decide (m ∈ k :: ks)) as [H'|H']; try done.
      * exfalso. apply H'. by right.
      * apply elem_of_cons in H' as [?|?]; congruence.
Qed.

Lemma get_column_app m cols1 cols2 :
  get_column m (cols1 ++ cols2) =
  match get_column m cols1 with Some v => Some v | None => get_column m cols2 end.
Proof.
  induction cols1 as [|[l v] cols1 IH]; simpl; [done|]. by destruct (decide (l = m)).
Qed.

Lemma set_column_fresh label values cols :
  label ∉ map fst cols → set_column label values cols = cols ++ [(label, values)].
Proof.
  induction cols as [|[l v] cols IH]; simpl; intros Hnin; [done|].
  rewrite decide_False.
  - f_equal. apply IH. intros ?. apply Hnin. by right.
  - intros ->. apply Hnin. by left.
Qed.

Lemma get_set_column label values cols :
  get_column label (set_column label values cols) = Some values.
Proof.
  induction cols as [|[l v] cols IH]; simpl.
  - by rewrite decide_True.
  - destruct (decide (l = label)) as [->|Hne]; simpl.
    + by rewrite decide_True.
    + by rewrite decide_False.
Qed.

Lemma map_const_replicate {A B} (b : B) (l : list A) :
  map (fun _ => b) l = replicate (length l) b.
Proof. induction l; simpl; congruence. Qed.

Lemma zip_with_map_same {A B C D} (g : B → C → D) (a : A → B) (b : A → C) (l : list A) :
  zip_with g (map a l) (map b l) = map (fun x => g (a x) (b x)) l.
Proof. induction l; simpl; congruence. Qed.

(** Line 66: after the reindexing the columns are the given labels, each
    filled with the cell amounts of that month, 0 where the subset has no
    row of that month. *)
Lemma reindex_pivot_table f sm :
  reindex (pivot_table f 0) sm 0 =
  {| index := sorted_str (unique (map Account_Code f));
     columns := map (fun m => (m, map (fun c => cell_amount f c m)
                                      (sorted_str (unique (map Account_Code f))))) sm |}.
Proof.
  unfold reindex, pivot_table. simpl. f_equal. apply map_ext. intros m. f_equal.
  rewrite (get_column_map (fun m => map (fun c => pivot_cell f 0 c m) _)).
  case_decide as Hm; simpl.
  - apply map_ext. intros c. apply pivot_cell_0.
  - rewrite <- map_const_replicate. apply map_ext. intros c.
    symmetry. apply cell_amount_no_row. intros r Hr _ <-. apply Hm.
    apply elem_of_sorted_str, elem_of_unique.
    change (map Month f) with (Month <$> f). apply list_elem_of_fmap. by exists r.
Qed.

Lemma sum_axis1_map (F : string → string → Z) (idx sm : list string) :
  sum_axis1 {| index := idx; columns := map (fun m => (m, map (fun c => F c m) idx)) sm |} =
  map (fun c => series_sum (map (F c) sm)) idx.
Proof.
  unfold sum_axis1. simpl. induction sm as [|m sm IH]; simpl.
  - by rewrite map_const_replicate.
  - rewrite IH. by rewrite zip_with_map_same.
Qed.

Lemma not_Total mo : month_abbr mo ≠ "Total".
Proof. by destruct mo. Qed.

(** Lines 58-67: the finished pivot has one row per account code of the
    subset, the given month columns in the given order, and after them the
    column Total with the row sums over the month columns. *)
Lemma pivot_closed_form f sm :
  "Total" ∉ sm →
  pivot f sm =
  {| index := sorted_str (unique (map Account_Code f));
     columns := map (fun m => (m, map (fun c => cell_amount f c m)
                                      (sorted_str (unique (map Account_Code f))))) sm
                ++ [("Total", map (row_total f sm) (sorted_str (unique (map Account_Code f))))] |}.
Proof.
  intros Hsm. unfold pivot. rewrite reindex_pivot_table.
  rewrite (sum_axis1_map (cell_amount f)). unfold setitem. simpl. f_equal.
  apply set_column_fresh. by rewrite map_map, map_id.
Qed.

Lemma Total_not_month ms : "Total" ∉ map month_abbr ms.
Proof.
  change (map month_abbr ms) with (month_abbr <$> ms).
  intros (mo & H & _)%list_elem_of_fmap. by apply (not_Total mo).
Qed.



(** ** Cells of the pivot *)

Lemma loc_map (F : string → Z) idx cols c m :
  c ∈ idx → get_column m cols = Some (map F idx) →
  loc {| index := idx; columns := cols |} c m = Some (F c).
Proof.
  intros Hc Hm. unfold loc. simpl.
  destruct (list_find_elem_of (fun x => x = c) idx c Hc eq_refl) as [[i x] Hfind].
  rewrite Hfind. simpl. rewrite Hm. simpl.
  apply list_find_Some in Hfind as (Hi & -> & _).
  change (map F idx) with (F <$> idx). by rewrite list_lookup_fmap, Hi.
Qed.

Lemma month_labels_NoDup f : NoDup (map month_abbr (months_of f)).
Proof.
  change (map month_abbr (months_of f)) with (month_abbr <$> months_of f).
  apply (NoDup_fmap_2 _), months_of_NoDup.
Qed.

Lemma elem_of_pivot_index f sm c :
  c ∈ index (pivot f sm) ↔ ∃ r, r ∈ f ∧ Account_Code r = c.
Proof.
  unfold pivot. simpl. rewrite elem_of_sorted_str, elem_of_unique.
  change (map Account_Code f) with (Account_Code <$> f).
  rewrite list_elem_of_fmap. split; intros (r & H1 & H2); by exists r.
Qed.

Lemma pivot_loc_month f ms c m :
  c ∈ index (pivot f (map month_abbr ms)) → m ∈ map month_abbr ms →
  loc (pivot f (map month_abbr ms)) c m = Some (cell_amount f c m).
Proof.
  rewrite pivot_closed_form by apply Total_not_month. simpl. intros Hc Hm.
  apply (loc_map (fun c => cell_amount f c m)); [done|].
  rewrite get_column_app.
  rewrite (get_column_map (fun m => map (fun c => cell_amount f c m) _)).
  by rewrite decide_True.
Qed.

Lemma pivot_loc_Total f ms c :
  c ∈ index (pivot f (map month_abbr ms)) →
  loc (pivot f (map month_abbr ms)) c "Total" = Some (row_total f (map month_abbr ms) c).
Proof.
  rewrite pivot_closed_form by apply Total_not_month. simpl. intros Hc.
  apply (loc_map (row_total f (map month_abbr ms))); [done|].
  rewrite get_column_app.
  rewrite (get_column_map (fun m => map (fun c => cell_amount f c m) _)).
  by rewrite decide_False by apply Total_not_month.
Qed.

(** The subset a selection keeps lies within the frame of the year. *)
Lemma filtered_months_covered df sel r :
  r ∈ filtered df sel →
  Month r ∈ map month_abbr (months_of (df_year df (selected_year sel))).
Proof.
  unfold filtered. intros (Hr & _)%elem_of_filtered_df.
  apply elem_of_month_labels. change (map Month ?l) with (Month <$> l).
  apply list_elem_of_fmap. by exists r.
Qed.

(** ** The columns of the pivot (C1) *)

(** C1, as stated, fails: with January and February present in 2024 and
    only January selected, the pivot still has the column Feb. *)
Lemma pivot_columns_not_selected_months :
  valid_selection sample_df only_jan ∧
  ¬ columns_are_selected_months sample_df only_jan.
Proof.
  split.
  - split_and!.
    + apply (bool_decide_unpack _). by vm_compute.
    + apply (bool_decide_unpack _). by vm_compute.
    + exists ["Jan"; "Feb"]. split; [done|]. apply (bool_decide_unpack _). by vm_compute.
  - intros H. specialize (H ["Jan"; "Feb"] eq_refl). vm_compute in H. discriminate H.
Qed.

(** C1, amended. Line 38 never fails, and for every selection the columns
    of the pivot are the labels of [sorted_months] followed by Total:
    the months that have a record in the selected year, in calendar order,
    whatever months are selected and whatever months have data in the
    subset.  The months of a valid selection are among them.  Each cell
    holds the summed amount of its account code and month; a month with no
    matching record holds 0 in every row. *)
Theorem pivot_columns_are_sorted_months (df : list row) (sel : selection) :
  let dfy := df_year df (selected_year sel) in
  let f := filtered df sel in
  ∃ sm, sorted_months dfy = Some sm ∧
        sm = map month_abbr (months_of dfy) ∧
        StronglySorted calendar_lt (months_of dfy) ∧
        (∀ mo, mo ∈ months_of dfy ↔
               ∃ r, r ∈ df ∧ Year r = selected_year sel ∧ row_month r = mo) ∧
        map fst (columns (pivot f sm)) = sm ++ ["Total"] ∧
        (valid_selection df sel → selected_months sel ⊆ sm) ∧
        (∀ c m, c ∈ index (pivot f sm) → m ∈ sm →
                loc (pivot f sm) c m = Some (cell_amount f c m)) ∧
        (∀ c m, c ∈ index (pivot f sm) → m ∈ sm →
                (∀ r, r ∈ f → Month r ≠ m) → loc (pivot f sm) c m = Some 0).
Proof.
  intros dfy f. exists (map month_abbr (months_of dfy)).
  split_and!.
  - apply sorted_months_spec.
  - done.
  - apply months_of_sorted.
  - intros mo. rewrite elem_of_months_of. unfold dfy.
    split.
    + intros (r & [Hr Hy]%elem_of_df_year & Hmo). by exists r.
    + intros (r & Hr & Hy & Hmo). exists r. by rewrite elem_of_df_year.
  - rewrite pivot_closed_form by apply Total_not_month. simpl.
    rewrite map_app, map_map. simpl. by rewrite map_id.
  - intros (_ & _ & sm' & Hsm' & Hsub). fold dfy in Hsm'.
    rewrite sorted_months_spec in Hsm'. by injection Hsm' as <-.
  - intros c m. apply pivot_loc_month.
  - intros c m Hc Hm Hnone. rewrite pivot_loc_month by done.
    f_equal. apply cell_amount_no_row. auto.
Qed.

(** ** The average of an empty subset (C2) *)

(** C2, as stated, fails: with no account code selected the subset is
    empty and the average is NaN, not a defined value. *)
Lemma empty_average_is_not_defined :
  valid_selection sample_df no_codes ∧
  ¬ empty_average_is_defined sample_df no_codes.
Proof.
  split.
  - split_and!.
    + apply (bool_decide_unpack _). by vm_compute.
    + apply (bool_decide_unpack _). by vm_compute.
    + exists ["Jan"; "Feb"]. split; [done|]. apply (bool_decide_unpack _). by vm_compute.
  - intros H. destruct (H eq_refl) as [q Hq]. vm_compute in Hq. discriminate Hq.
Qed.

(** ** The monthly totals (C5) *)

(** C5. The monthly-totals series has one entry per month that occurs in
    the filtered subset, carrying the month's label, the summed base
    amount of the rows of that month and the month's number; the entries
    stand in ascending order of the calendar number of the month. *)
Theorem monthly_totals_in_calendar_order (df : list row) (sel : selection) :
  let f := filtered df sel in
  let mm := month_map (df_year df (selected_year sel)) in
  monthly_totals f mm =
    map (fun mo => (month_abbr mo,
                    amount_where (fun r => bool_decide (Month r = month_abbr mo)) f,
                    Some (month_number mo)))
        (months_of f) ∧
  StronglySorted calendar_lt (months_of f) ∧
  ∀ mo, mo ∈ months_of f ↔ ∃ r, r ∈ f ∧ row_month r = mo.
Proof.
  intros f mm. split_and!.
  - apply monthly_totals_spec. intros r Hr. apply month_map_lookup_row.
    unfold f, filtered in Hr. by apply elem_of_filtered_df in Hr as [? _].
  - apply months_of_sorted.
  - apply elem_of_months_of.
Qed.

(** The order is that of the calendar, neither that of the labels nor that
    of first appearance: the rows come February, April, January; the labels
    sort as Apr, Feb, Jan. *)
Example monthly_totals_unordered :
  monthly_totals (filtered unordered_df everything)
                 (month_map (df_year unordered_df 2024)) =
    [("Jan", 0, Some 1%nat); ("Feb", 200, Some 2%nat); ("Apr", 7, Some 4%nat)] ∧
  month_options (df_year unordered_df 2024) = ["Feb"; "Apr"; "Jan"] ∧
  sorted_str (month_options (df_year unordered_df 2024)) = ["Apr"; "Feb"; "Jan"].
Proof. by vm_compute. Qed.

(** An account code whose amounts cancel keeps its row. *)
Example pivot_zero_total_row :
  pivot (filtered unordered_df everything) ["Jan"; "Feb"; "Apr"] =
  {| index := ["A100"; "B200"];
     columns := [("Jan", [0; 0]); ("Feb", [0; 200]); ("Apr", [7; 0]); ("Total", [7; 200])] |} ∧
  pivot (filtered unordered_df only_jan) ["Jan"; "Feb"; "Apr"] =
  {| index := ["A100"];
     columns := [("Jan", [0]); ("Feb", [0]); ("Apr", [0]); ("Total", [0])] |}.
Proof. by vm_compute. Qed.

(** With only January selected the column Feb stays, filled with 0. *)
Example pivot_only_jan :
  pivot (filtered sample_df only_jan) ["Jan"; "Feb"] =
  {| index := ["A100"];
     columns := [("Jan", [150]); ("Feb", [0]); ("Total", [150])] |} ∧
  loc (pivot (filtered sample_df only_jan) ["Jan"; "Feb"]) "A100" "Feb" = Some 0.
Proof. by vm_compute. Qed.

(** The scenario of the specification. *)
Example sample_report :
  total_transactions (filtered sample_df jan_feb) = 3%nat ∧
  total_amount (filtered sample_df jan_feb) = 350 ∧
  avg_per_transaction (filtered sample_df jan_feb) = Finite (QArith_base.Qmake 350 3) ∧
  pivot (filtered sample_df jan_feb) ["Jan"; "Feb"] =
  {| index := ["A100"; "B200"];
     columns := [("Jan", [150; 0]); ("Feb", [0; 200]); ("Total", [150; 200])] |} ∧
  monthly_totals (filtered sample_df jan_feb) (month_map (df_year sample_df 2024)) =
    [("Jan", 150, Some 1%nat); ("Feb", 200, Some 2%nat)].
Proof. by vm_compute. Qed.

(** ** The pass on the heap *)

Section script.
Import Script.

Lemma lookup_new (h : list frame) (o : frame) : (h ++ [o]) !! length h = Some o.
Proof. by rewrite lookup_app_r, Nat.sub_diag. Qed.

Lemma lookup_old (h k : list frame) (l : nat) (o : frame) :
  h !! l = Some o → (h ++ k) !! l = Some o.
Proof. intros H. by apply lookup_app_l_Some. Qed.

Lemma insert_new (h : list frame) (o o' : frame) :
  <[length h := o']> (h ++ [o]) = h ++ [o'].
Proof. by rewrite insert_app_r_alt, Nat.sub_diag. Qed.

Lemma transactions_spec (h : list frame) l rows :
  h !! l = Some (Transactions rows) → transactions l h = Some (rows, h).
Proof. intros H. unfold transactions, bind, get. by rewrite H. Qed.

Lemma pivot_at_spec (h : list frame) l p :
  h !! l = Some (PivotTable p) → pivot_at l h = Some (p, h).
Proof. intros H. unfold pivot_at, bind, get. by rewrite H. Qed.

Lemma group_totals_spec (h : list frame) l g :
  h !! l = Some (GroupTotals g) → group_totals l h = Some (g, h).
Proof. intros H. unfold group_totals, bind, get. by rewrite H. Qed.

Lemma month_totals_spec (h : list frame) l g :
  h !! l = Some (MonthTotals g) → month_totals l h = Some (g, h).
Proof. intros H. unfold month_totals, bind, get. by rewrite H. Qed.

Lemma put_new (h : list frame) (o o' : frame) :
  put (length h) o' (h ++ [o]) = Some (tt, h ++ [o']).
Proof.
  unfold put. rewrite decide_True by (rewrite length_app; simpl; lia).
  by rewrite insert_new.
Qed.

(** Line 31 builds one new frame and changes none. *)
Lemma select_year_spec (h : list frame) df rows y :
  h !! df = Some (Transactions rows) →
  select_year df y h = Some (length h, h ++ [Transactions (df_year rows y)]).
Proof.
  intros H. unfold select_year, bind. by rewrite (transactions_spec _ _ _ H).
Qed.

Lemma filter_rows_spec (h : list frame) dfy rows codes months :
  h !! dfy = Some (Transactions rows) →
  filter_rows dfy codes months h =
  Some (length h, h ++ [Transactions (filtered_df rows codes months)]).
Proof.
  intros H. unfold filter_rows, bind. by rewrite (transactions_spec _ _ _ H).
Qed.

Lemma filter_selection_spec (h : list frame) df rows sel :
  h !! df = Some (Transactions rows) →
  filter_selection df sel h =
  Some (S (length h),
        h ++ [Transactions (df_year rows (selected_year sel));
              Transactions (filtered rows sel)]).
Proof.
  intros H. unfold filter_selection, bind.
  rewrite (select_year_spec _ _ _ _ H).
  rewrite (filter_rows_spec _ _ (df_year rows (selected_year sel))) by apply lookup_new.
  rewrite length_app, <- app_assoc. simpl. by rewrite Nat.add_1_r.
Qed.

(** Lines 58-67 build two frames, the table of line 58 and the reindexed
    table of line 66, and assign the column Total in the second. *)
Lemma build_pivot_spec (h : list frame) f rows sm :
  h !! f = Some (Transactions rows) →
  build_pivot f sm h =
  Some (S (length h), h ++ [PivotTable (pivot_table rows 0); PivotTable (pivot rows sm)]).
Proof.
  intros H. unfold build_pivot, bind.
  rewrite (transactions_spec _ _ _ H). unfold new at 1.
  rewrite (pivot_at_spec _ _ _ (lookup_new h _)). unfold new at 1.
  rewrite (pivot_at_spec _ _ _ (lookup_new (h ++ [_]) _)).
  rewrite put_new. unfold ret, pivot.
  rewrite length_app, <- app_assoc. simpl. by rewrite Nat.add_1_r.
Qed.

(** Lines 72-74 build two frames: the grouped frame, to which line 73
    adds the column of month numbers, and its sorted copy. *)
Lemma build_monthly_totals_spec (h : list frame) f rows mm :
  h !! f = Some (Transactions rows) →
  build_monthly_totals f mm h =
  Some (S (length h),
        h ++ [MonthTotals (with_month_num mm (groupby_sum Month rows));
              MonthTotals (monthly_totals rows mm)]).
Proof.
  intros H. unfold build_monthly_totals, bind.
  rewrite (transactions_spec _ _ _ H). unfold new at 1.
  rewrite (group_totals_spec _ _ _ (lookup_new h _)).
  rewrite put_new.
  rewrite (month_totals_spec _ _ _ (lookup_new h _)). unfold new, monthly_totals.
  rewrite length_app, <- app_assoc. simpl. by rewrite Nat.add_1_r.
Qed.

Lemma build_code_totals_spec (h : list frame) f rows :
  h !! f = Some (Transactions rows) →
  build_code_totals f h =
  Some (length h, h ++ [GroupTotals (code_totals rows)]).
Proof.
  intros H. unfold build_code_totals, bind. by rewrite (transactions_spec _ _ _ H).
Qed.

End script.

Section run.
Import Script.

Lemma lookup_added (h k : list frame) (i : nat) : (h ++ k) !! (length h + i)%nat = k !! i.
Proof. rewrite lookup_app_r by lia. f_equal. lia. Qed.

(** One pass over a heap that holds the cleaned frame at [df]: it never
    fails, it appends the frames it builds and binds its names to them. *)
Lemma run_spec (h : list frame) df rows sel :
  h !! df = Some (Transactions rows) →
  run df sel h = Some (names_bound (length h) rows sel, h ++ frames_built rows sel).
Proof.
  intros H. unfold run, bind.
  rewrite (select_year_spec _ _ _ _ H).
  rewrite (transactions_spec _ _ _ (lookup_new h _)).
  rewrite sorted_months_spec. simpl.
  rewrite (filter_rows_spec _ _ _ _ _ (lookup_new h _)).
  rewrite (transactions_spec _ _ _ (lookup_new (h ++ [_]) _)).
  rewrite (build_pivot_spec _ _ _ _ (lookup_new (h ++ [_]) _)).
  rewrite (build_monthly_totals_spec _ _ _ _
             (lookup_old _ _ _ _ (lookup_new (h ++ [_]) _))).
  rewrite (build_code_totals_spec _ _ _
             (lookup_old _ _ _ _ (lookup_old _ _ _ _ (lookup_new (h ++ [_]) _)))).
  unfold ret, names_bound, frames_built, filtered.
  rewrite !length_app, <- !app_assoc. simpl. do 2 f_equal. f_equal; lia.
Qed.

Lemma view_spec (h : list frame) rows sel :
  view (names_bound (length h) rows sel) (h ++ frames_built rows sel) =
  Some (expected_report rows sel, h ++ frames_built rows sel).
Proof.
  unfold view, bind, names_bound. simpl.
  erewrite transactions_spec by (rewrite lookup_added; reflexivity).
  erewrite pivot_at_spec by (rewrite lookup_added; reflexivity).
  erewrite month_totals_spec by (rewrite lookup_added; reflexivity).
  erewrite group_totals_spec by (rewrite lookup_added; reflexivity).
  done.
Qed.

(** A later extension of the heap does not change what the names of an
    earlier pass show. *)
Lemma view_extended (h k : list frame) rows sel :
  view (names_bound (length h) rows sel) ((h ++ frames_built rows sel) ++ k) =
  Some (expected_report rows sel, (h ++ frames_built rows sel) ++ k).
Proof.
  unfold view, bind, names_bound. simpl.
  erewrite transactions_spec by (apply lookup_old; rewrite lookup_added; reflexivity).
  erewrite pivot_at_spec by (apply lookup_old; rewrite lookup_added; reflexivity).
  erewrite month_totals_spec by (apply lookup_old; rewrite lookup_added; reflexivity).
  erewrite group_totals_spec by (apply lookup_old; rewrite lookup_added; reflexivity).
  done.
Qed.

End run.

(** ** The filter (C4) *)

Lemma elem_of_filtered rows sel r :
  r ∈ filtered rows sel ↔
  r ∈ rows ∧ Year r = selected_year sel ∧
  Account_Code r ∈ selected_codes sel ∧ Month r ∈ selected_months sel.
Proof. unfold filtered. rewrite elem_of_filtered_df, elem_of_df_year. tauto. Qed.

Lemma filtered_sublist rows sel : filtered rows sel `sublist_of` rows.
Proof.
  unfold filtered. etransitivity; [apply filtered_df_sublist_year|apply df_year_sublist].
Qed.

(** C4. On a heap that holds the cleaned frame, the filter of lines 31 and
    42-45 succeeds and binds [filtered_df] to a new frame.  Its rows are
    rows of the input, in input order, and they are exactly the rows whose
    year is the selected year, whose account code is among the selected
    codes and whose month label is among the selected months.  The frames
    that existed before, the input among them, are unchanged. *)
Theorem filter_keeps_matching_rows
    (h : list Script.frame) (df : nat) (rows : list row) (sel : selection) :
  h !! df = Some (Script.Transactions rows) →
  ∃ f h',
    Script.filter_selection df sel h = Some (f, h') ∧
    h' !! f = Some (Script.Transactions (filtered rows sel)) ∧
    h `prefix_of` h' ∧
    h' !! df = Some (Script.Transactions rows) ∧
    filtered rows sel `sublist_of` rows ∧
    ∀ r, r ∈ filtered rows sel ↔
         r ∈ rows ∧ Year r = selected_year sel ∧
         Account_Code r ∈ selected_codes sel ∧ Month r ∈ selected_months sel.
Proof.
  intros H. eexists _, _. split; [by apply filter_selection_spec|].
  split_and!.
  - replace (S (length h)) with (length h + 1)%nat by lia. by rewrite lookup_added.
  - by eexists.
  - by apply lookup_old.
  - apply filtered_sublist.
  - apply elem_of_filtered.
Qed.

Lemma filter_keeps_matching_rows_witness :
  ∃ f h',
    Script.filter_selection 0 only_jan [Script.Transactions sample_df] = Some (f, h') ∧
    h' !! f = Some (Script.Transactions (filtered sample_df only_jan)) ∧
    [Script.Transactions sample_df] `prefix_of` h' ∧
    h' !! 0%nat = Some (Script.Transactions sample_df) ∧
    filtered sample_df only_jan `sublist_of` sample_df ∧
    ∀ r, r ∈ filtered sample_df only_jan ↔
         r ∈ sample_df ∧ Year r = selected_year only_jan ∧
         Account_Code r ∈ selected_codes only_jan ∧ Month r ∈ selected_months only_jan.
Proof.
  apply (filter_keeps_matching_rows [Script.Transactions sample_df] 0 sample_df only_jan).
  reflexivity.
Defined.

(** ** Running the pass twice (C8) *)

(** C8. On a heap that holds the cleaned frame, a pass succeeds, and so
    does a second pass started on the heap the first one left.  Both
    passes show the same report: the filtered rows, the three metrics, the
    pivot, the monthly totals and the code totals; the results of the first
    pass are still the same after the second.  Every frame that existed
    before a pass is unchanged after it; the input frame in particular
    holds the same rows throughout. *)
Theorem aggregation_is_repeatable
    (h : list Script.frame) (df : nat) (rows : list row) (sel : selection) :
  h !! df = Some (Script.Transactions rows) →
  ∃ o1 h1 o2 h2 rep,
    Script.run df sel h = Some (o1, h1) ∧
    Script.run df sel h1 = Some (o2, h2) ∧
    Script.view o1 h1 = Some (rep, h1) ∧
    Script.view o2 h2 = Some (rep, h2) ∧
    Script.view o1 h2 = Some (rep, h2) ∧
    rep = expected_report rows sel ∧
    h `prefix_of` h1 ∧ h1 `prefix_of` h2 ∧
    h1 !! df = Some (Script.Transactions rows) ∧
    h2 !! df = Some (Script.Transactions rows).
Proof.
  intros H.
  pose proof (lookup_old h (frames_built rows sel) _ _ H) as H1.
  pose proof (lookup_old _ (frames_built rows sel) _ _ H1) as H2.
  eexists _, _, _, _, _.
  split; [by apply run_spec|].
  split; [by apply run_spec|].
  split_and!.
  - apply view_spec.
  - apply view_spec.
  - apply view_extended.
  - done.
  - by eexists.
  - by eexists.
  - done.
  - done.
Qed.

Lemma aggregation_is_repeatable_witness :
  ∃ o1 h1 o2 h2 rep,
    Script.run 0 jan_feb [Script.Transactions sample_df] = Some (o1, h1) ∧
    Script.run 0 jan_feb h1 = Some (o2, h2) ∧
    Script.view o1 h1 = Some (rep, h1) ∧
    Script.view o2 h2 = Some (rep, h2) ∧
    Script.view o1 h2 = Some (rep, h2) ∧
    rep = expected_report sample_df jan_feb ∧
    [Script.Transactions sample_df] `prefix_of` h1 ∧ h1 `prefix_of` h2 ∧
    h1 !! 0%nat = Some (Script.Transactions sample_df) ∧
    h2 !! 0%nat = Some (Script.Transactions sample_df).
Proof.
  apply (aggregation_is_repeatable [Script.Transactions sample_df] 0 sample_df jan_feb).
  reflexivity.
Defined.

(** ** The average of an empty subset, on the heap (C2) *)

(** C2, amended. When the filtered subset is empty the pass does not fail:
    the count is 0, the total amount is 0, the pivot has no row, and the
    average is NaN; no other value stands in for it. *)
Theorem empty_average_is_nan
    (h : list Script.frame) (df : nat) (rows : list row) (sel : selection) :
  h !! df = Some (Script.Transactions rows) →
  total_transactions (filtered rows sel) = 0%nat →
  ∃ o h' p,
    Script.run df sel h = Some (o, h') ∧
    Script.o_total_transactions o = 0%nat ∧
    Script.o_total_amount o = 0 ∧
    Script.o_avg_per_transaction o = NaN ∧
    ¬ defined (Script.o_avg_per_transaction o) ∧
    h' !! Script.o_pivot o = Some (Script.PivotTable p) ∧
    index p = [].
Proof.
  intros H Hlen. eexists _, _, _. split; [by apply run_spec|].
  unfold names_bound, frames_built. simpl. rewrite lookup_added. simpl.
  unfold total_transactions in Hlen.
  destruct (filtered rows sel); [|discriminate Hlen].
  split_and!; try done. by intros [q Hq].
Qed.

Lemma empty_average_is_nan_witness :
  ∃ o h' p,
    Script.run 0 no_codes [Script.Transactions sample_df] = Some (o, h') ∧
    Script.o_total_transactions o = 0%nat ∧
    Script.o_total_amount o = 0 ∧
    Script.o_avg_per_transaction o = NaN ∧
    ¬ defined (Script.o_avg_per_transaction o) ∧
    h' !! Script.o_pivot o = Some (Script.PivotTable p) ∧
    index p = [].
Proof.
  apply (empty_average_is_nan [Script.Transactions sample_df] 0 sample_df no_codes);
    reflexivity.
Defined.

(** ** The export request *)

(** The workbook has a single sheet, named after the year and holding the
    pivot as displayed; the file name and the MIME type are those of an
    xlsx file.  Nothing is claimed here about the bytes of the file. *)
Lemma export_request (p : pivot_frame) (y : Z) :
  data (export p y) = [(String.append "Pivot_" (str_of_year y), p)] ∧
  file_name (export p y) = String.append "pivot_" (String.append (str_of_year y) ".xlsx") ∧
  mime (export p y) = "application/vnd.openxmlformats-officedocument.spreadsheetml.sheet".
Proof. done. Qed.

Example export_2024 (p : pivot_frame) :
  map fst (data (export p 2024)) = ["Pivot_2024"] ∧
  file_name (export p 2024) = "pivot_2024.xlsx".
Proof. done. Qed.

(** * The sums as the dtype adds them *)

(** ** int64 is exact, float64 is not *)

Lemma wrap64_add (a b : Z) : wrap64 (wrap64 a + wrap64 b) = wrap64 (a + b).
Proof.
  unfold wrap64. f_equal.
  replace ((a + 2 ^ 63) mod 2 ^ 64 - 2 ^ 63 + ((b + 2 ^ 63) mod 2 ^ 64 - 2 ^ 63) + 2 ^ 63)
    with ((a + 2 ^ 63) mod 2 ^ 64 + ((b + 2 ^ 63) mod 2 ^ 64 - 2 ^ 63)) by lia.
  rewrite Zplus_mod_idemp_l.
  replace (a + 2 ^ 63 + ((b + 2 ^ 63) mod 2 ^ 64 - 2 ^ 63))
    with ((b + 2 ^ 63) mod 2 ^ 64 + a) by lia.
  rewrite Zplus_mod_idemp_l. f_equal. lia.
Qed.

Lemma wrap64_in_range (z : Z) : - 2 ^ 63 ≤ z < 2 ^ 63 → wrap64 z = z.
Proof. intros Hz. unfold wrap64. rewrite Z.mod_small; lia. Qed.

Lemma int64_exact : exact int64.
Proof. split; [reflexivity|]. intros a b. simpl. apply wrap64_add. Qed.

(** A cell that float64 cannot store: the next cell up is not the sum. *)
Lemma float64_not_exact : ¬ exact float64.
Proof.
  intros [_ H]. specialize (H (2 ^ 53 + 1) 1). vm_compute in H. discriminate H.
Qed.

(** A sheet with every amount cell present is read as int64, a sheet with
    an empty amount cell as float64. *)
Lemma amount_dtype_spec (sheet : list raw_row) :
  (Forall (fun r => is_Some (raw_amount r)) sheet → amount_dtype sheet = int64) ∧
  (Exists (fun r => raw_amount r = None) sheet → amount_dtype sheet = float64).
Proof.
  unfold amount_dtype. split.
  - induction 1 as [|r sheet [a Ha] _ IH]; simpl; [done|].
    rewrite Ha. simpl. done.
  - induction 1 as [r sheet Hr|r sheet _ IH]; simpl.
    + by rewrite Hr.
    + destruct (bool_decide (raw_amount r = None)); [done|]. by simpl.
Qed.

Section dtype_sums.
Context (d : dtype).

Lemma dt_foldl_add_exact (a : Z) (l : list Z) :
  exact d →
  foldl (add d) (of_cell d a) (map (of_cell d) l) = of_cell d (a + series_sum l).
Proof.
  intros [_ Hadd]. revert a. induction l as [|x l IH]; intros a; simpl.
  - f_equal. lia.
  - rewrite Hadd, IH. f_equal. lia.
Qed.

(** Over exact additions a sum of stored cells is the stored sum of the
    cells. *)
Lemma dt_series_sum_exact (l : list Z) :
  exact d → Dtype.series_sum d (map (of_cell d) l) = of_cell d (series_sum l).
Proof.
  intros Hd. unfold Dtype.series_sum. rewrite <- (proj1 Hd).
  by rewrite dt_foldl_add_exact.
Qed.

Lemma dt_amounts (f : list row) : Dtype.amounts d f = map (of_cell d) (map Base_Amount f).
Proof. unfold Dtype.amounts. by rewrite map_map. Qed.

Lemma dt_total_amount_exact (f : list row) :
  exact d → Dtype.total_amount d f = of_cell d (total_amount f).
Proof. intros Hd. unfold Dtype.total_amount. by rewrite dt_amounts, dt_series_sum_exact. Qed.


(** Over exact additions the order of the summands is immaterial. *)
Lemma dt_series_sum_perm_exact (l : list Z) (k : list (num d)) :
  exact d → k ≡ₚ map (of_cell d) l → Dtype.series_sum d k = of_cell d (series_sum l).
Proof.
  intros Hd Hk.
  apply Permutation_map_inv in Hk as (l' & -> & Hl').
  rewrite dt_series_sum_exact by done. f_equal. symmetry. by apply series_sum_perm.
Qed.

(** *** The pivot in closed form, for every dtype *)

Lemma dt_pivot_cell (f : list row) (c m : string) :
  Dtype.pivot_cell d f (zero d) c m = Dtype.cell d f c m.
Proof. unfold Dtype.pivot_cell, Dtype.cell. by destruct (group f c m). Qed.

Lemma dt_cell_no_row (f : list row) (c m : string) :
  (∀ r, r ∈ f → Account_Code r = c → Month r ≠ m) → Dtype.cell d f c m = zero d.
Proof.
  intros H. unfold Dtype.cell, group. rewrite filter_bool_nil; [done|].
  intros r Hr. apply andb_false_iff. destruct (decide (Account_Code r = c)) as [Hc|Hc].
  - right. apply bool_decide_eq_false. by apply H.
  - left. by apply bool_decide_eq_false.
Qed.

Lemma dt_get_column_map (F : string → list (num d)) (ks : list string) (m : string) :
  Dtype.get_column d m (map (fun k => (k, F k)) ks)
  = if decide (m ∈ ks) then Some (F m) else None.
Proof.
  induction ks as [|k ks IH]; simpl.
  - destruct (decide (m ∈ [])) as [H|H]; [by apply elem_of_nil in H|done].
  - destruct (decide (k = m)) as [->|Hne].
    + destruct (decide (m ∈ m :: ks)) as [|H]; [done|]. exfalso. apply H. by left.
    + rewrite IH.
      destruct (decide (m ∈ ks)) as [H|H], (decide (m ∈ k :: ks)) as [H'|H']; try done.
      * exfalso. apply H'. by right.
      * apply elem_of_cons in H' as [?|?]; congruence.
Qed.

Lemma dt_get_column_app m cols1 cols2 :
  Dtype.get_column d m (cols1 ++ cols2) =
  match Dtype.get_column d m cols1 with
  | Some v => Some v
  | None => Dtype.get_column d m cols2
  end.
Proof.
  induction cols1 as [|[l v] cols1 IH]; simpl; [done|]. by destruct (decide (l = m)).
Qed.

Lemma dt_set_column_fresh label values cols :
  label ∉ map fst cols →
  Dtype.set_column d label values cols = cols ++ [(label, values)].
Proof.
  induction cols as [|[l v] cols IH]; simpl; intros Hnin; [done|].
  rewrite decide_False.
  - f_equal. apply IH. intros ?. apply Hnin. by right.
  - intros ->. apply Hnin. by left.
Qed.

Lemma dt_reindex_pivot_table f sm :
  Dtype.reindex d (Dtype.pivot_table d f (zero d)) sm (zero d) =
  {| Dtype.index := sorted_str (unique (map Account_Code f));
     Dtype.columns := map (fun m => (m, map (fun c => Dtype.cell d f c m)
                                            (sorted_str (unique (map Account_Code f))))) sm |}.
Proof.
  unfold Dtype.reindex, Dtype.pivot_table. cbn [Dtype.index Dtype.columns].
  f_equal. apply map_ext. intros m. f_equal.
  rewrite (dt_get_column_map (fun m => map (fun c => Dtype.pivot_cell d f (zero d) c m) _)).
  case_decide as Hm; cbn [default].
  - apply map_ext. intros c. apply dt_pivot_cell.
  - rewrite <- map_const_replicate. apply map_ext. intros c.
    symmetry. apply dt_cell_no_row. intros r Hr _ <-. apply Hm.
    apply elem_of_sorted_str, elem_of_unique.
    change (map Month f) with (Month <$> f). apply list_elem_of_fmap. by exists r.
Qed.

Lemma dt_sum_axis1_acc (F : string → string → num d) (A : string → num d)
    (idx sm : list string) :
  foldl (fun acc (col : string * list (num d)) => zip_with (add d) acc col.2)
        (map A idx) (map (fun m => (m, map (fun c => F c m) idx)) sm)
  = map (fun c => foldl (add d) (A c) (map (F c) sm)) idx.
Proof.
  revert A. induction sm as [|m sm IH]; intros A; simpl; [done|].
  rewrite zip_with_map_same. apply (IH (fun c => add d (A c) (F c m))).
Qed.

Lemma dt_sum_axis1_map (F : string → string → num d) (idx sm : list string) :
  Dtype.sum_axis1 d {| Dtype.index := idx;
                       Dtype.columns := map (fun m => (m, map (fun c => F c m) idx)) sm |}
  = map (fun c => Dtype.series_sum d (map (F c) sm)) idx.
Proof.
  unfold Dtype.sum_axis1. cbn [Dtype.index Dtype.columns].
  rewrite <- map_const_replicate. apply dt_sum_axis1_acc.
Qed.

(** The row total of an account code, as the dtype adds it: its month
    cells added in column order. *)
Lemma dt_pivot_closed_form f sm :
  "Total" ∉ sm →
  Dtype.pivot d f sm =
  {| Dtype.index := sorted_str (unique (map Account_Code f));
     Dtype.columns :=
       map (fun m => (m, map (fun c => Dtype.cell d f c m)
                             (sorted_str (unique (map Account_Code f))))) sm
       ++ [("Total", map (fun c => Dtype.series_sum d (map (Dtype.cell d f c) sm))
                         (sorted_str (unique (map Account_Code f))))] |}.
Proof.
  intros Hsm. unfold Dtype.pivot. rewrite dt_reindex_pivot_table.
  rewrite (dt_sum_axis1_map (Dtype.cell d f)). unfold Dtype.setitem.
  cbn [Dtype.index Dtype.columns]. f_equal.
  apply dt_set_column_fresh. by rewrite map_map, map_id.
Qed.

Lemma dt_loc_map (F : string → num d) idx cols c m :
  c ∈ idx → Dtype.get_column d m cols = Some (map F idx) →
  Dtype.loc d {| Dtype.index := idx; Dtype.columns := cols |} c m = Some (F c).
Proof.
  intros Hc Hm. unfold Dtype.loc. cbn [Dtype.index Dtype.columns].
  destruct (list_find_elem_of (fun x => x = c) idx c Hc eq_refl) as [[i x] Hfind].
  rewrite Hfind. simpl. rewrite Hm. simpl.
  apply list_find_Some in Hfind as (Hi & -> & _).
  change (map F idx) with (F <$> idx). by rewrite list_lookup_fmap, Hi.
Qed.


Lemma dt_pivot_get_Total f ms :
  Dtype.get_column d "Total" (Dtype.columns d (Dtype.pivot d f (map month_abbr ms)))
  = Some (map (fun c => Dtype.series_sum d (map (Dtype.cell d f c) (map month_abbr ms)))
              (sorted_str (unique (map Account_Code f)))).
Proof.
  rewrite dt_pivot_closed_form by apply Total_not_month. cbn [Dtype.columns].
  rewrite dt_get_column_app.
  rewrite (dt_get_column_map (fun m => map (fun c => Dtype.cell d f c m) _)).
  by rewrite decide_False by apply Total_not_month.
Qed.

Lemma dt_pivot_loc_Total f ms c :
  c ∈ sorted_str (unique (map Account_Code f)) →
  Dtype.loc d (Dtype.pivot d f (map month_abbr ms)) c "Total"
  = Some (Dtype.series_sum d (map (Dtype.cell d f c) (map month_abbr ms))).
Proof.
  intros Hc. pose proof (dt_pivot_get_Total f ms) as Hget.
  rewrite dt_pivot_closed_form in * by apply Total_not_month.
  by apply (dt_loc_map (fun c => Dtype.series_sum d (map (Dtype.cell d f c) (map month_abbr ms)))).
Qed.

End dtype_sums.

Section dtype_exact.
Context (d : dtype) (Hd : exact d).



Lemma dt_groupby_sum_exact (key : row → string) f :
  Dtype.groupby_sum d key f = map (fun kv => (kv.1, of_cell d kv.2)) (groupby_sum key f).
Proof.
  unfold Dtype.groupby_sum, groupby_sum. rewrite map_map. apply map_ext. intros k.
  cbn [fst snd]. f_equal. by rewrite dt_amounts, dt_series_sum_exact.
Qed.

Lemma dt_groupby_sum_total (key : row → string) f :
  Dtype.series_sum d (map snd (Dtype.groupby_sum d key f)) = Dtype.total_amount d f.
Proof.
  rewrite dt_groupby_sum_exact, map_map. cbn [snd].
  rewrite <- (map_map snd (of_cell d)), dt_series_sum_exact by done.
  by rewrite groupby_sum_total, dt_total_amount_exact.
Qed.

End dtype_exact.

(** ** The Total column (C3) *)




(** On the int64 column of the same three rows both sums are 1. *)
Example int64_total_column :
  Dtype.total_amount int64 (filtered rounding_df only_jan) = 1 ∧
  Dtype.get_column int64 "Total"
    (Dtype.columns int64 (Dtype.pivot int64 (filtered rounding_df only_jan) ["Jan"]))
  = Some [0; 1].
Proof. by vm_compute. Qed.

(** ** The rows of the pivot (C6) *)

(** C6.  Whatever the dtype of the amounts, the rows of the pivot are
    exactly the account codes that occur in the filtered subset, each
    once, in strictly ascending string order: a code has a row as soon as
    one of its records is in the subset, whatever its amounts.  The Total
    of a row is the sum of the month cells of its code, so a code whose
    month cells add up to zero keeps its row, with Total 0. *)
Theorem pivot_rows_are_codes_of_subset (d : dtype) (df : list row) (sel : selection) :
  let f := filtered df sel in
  ∃ sm, sorted_months (df_year df (selected_year sel)) = Some sm ∧
        Dtype.index d (Dtype.pivot d f sm) = index (pivot f sm) ∧
        StronglySorted str_lt (Dtype.index d (Dtype.pivot d f sm)) ∧
        (∀ c, c ∈ Dtype.index d (Dtype.pivot d f sm) ↔ ∃ r, r ∈ f ∧ Account_Code r = c) ∧
        (∀ c, c ∈ Dtype.index d (Dtype.pivot d f sm) →
              Dtype.loc d (Dtype.pivot d f sm) c "Total" =
              Some (Dtype.series_sum d (map (Dtype.cell d f c) sm))) ∧
        (∀ r, r ∈ f →
              Account_Code r ∈ Dtype.index d (Dtype.pivot d f sm) ∧
              (Dtype.series_sum d (map (Dtype.cell d f (Account_Code r)) sm) = zero d →
               Dtype.loc d (Dtype.pivot d f sm) (Account_Code r) "Total" = Some (zero d))).
Proof.
  intros f. set (dfy := df_year df (selected_year sel)).
  exists (map month_abbr (months_of dfy)).
  assert (∀ c, c ∈ Dtype.index d (Dtype.pivot d f (map month_abbr (months_of dfy))) ↔
               ∃ r, r ∈ f ∧ Account_Code r = c) as Hrows.
  { intros c. apply (elem_of_pivot_index f (map month_abbr (months_of dfy)) c). }
  split_and!.
  - apply sorted_months_spec.
  - done.
  - apply sorted_unique_strict.
  - done.
  - intros c Hc. by apply dt_pivot_loc_Total.
  - intros r Hr.
    assert (Account_Code r ∈ Dtype.index d (Dtype.pivot d f (map month_abbr (months_of dfy))))
      as Hin by (apply Hrows; by exists r).
    split; [done|]. intros Hzero. rewrite dt_pivot_loc_Total by exact Hin. by rewrite Hzero.
Qed.

(** Two January amounts of A100 that cancel: the row stays, with Total 0,
    on an int64 and on a float64 column. *)
Example pivot_zero_total_row_dtype :
  Dtype.loc int64 (Dtype.pivot int64 (filtered unordered_df only_jan) ["Feb"; "Apr"; "Jan"])
            "A100" "Total" = Some 0 ∧
  Dtype.loc float64 (Dtype.pivot float64 (filtered unordered_df only_jan) ["Feb"; "Apr"; "Jan"])
            "A100" "Total" = Some PrimFloat.zero.
Proof. by vm_compute. Qed.

(** ** Grouping conserves the total (C10) *)

(** C10, as stated, fails on a float64 column.  On the three January rows
    10^16 (A100), 1 (B200), -10^16 (A100) the monthly totals hold one
    entry, (10^16 + 1) - 10^16 = 0.0, and Total Amount is 0.0 as well, but
    the code totals are 0.0 for A100 and 1.0 for B200 and add up to 1.0. *)
Lemma group_totals_differ_from_total_amount :
  amount_dtype rounding_sheet = float64 ∧
  load rounding_sheet = Some rounding_df ∧
  valid_selection rounding_df only_jan ∧
  ¬ group_totals_conserve_total float64 rounding_df only_jan.
Proof.
  split_and!.
  - reflexivity.
  - reflexivity.
  - split_and!.
    + apply (bool_decide_unpack _). by vm_compute.
    + apply (bool_decide_unpack _). by vm_compute.
    + exists ["Jan"]. split; [done|]. apply (bool_decide_unpack _). by vm_compute.
  - intros [_ Hcodes]. vm_compute in Hcodes. discriminate Hcodes.
Qed.

(** C10, amended.  When the additions of the amount column are exact, as
    they are on an int64 column (wrap-around included), grouping by month
    or by account code conserves the total: the values of the
    monthly-totals series, the values of the code-totals series and the
    Total Amount metric of the same subset add up to the same number.  On
    a float64 column each of the three is a sum of the same records in
    its own grouping, and they can differ by rounding. *)
Theorem exact_group_totals_conserve_total (d : dtype) (df : list row) (sel : selection) :
  exact d → group_totals_conserve_total d df sel.
Proof.
  intros Hd. unfold group_totals_conserve_total. cbv zeta.
  set (f := filtered df sel). set (mm := month_map (df_year df (selected_year sel))).
  split; [|by apply dt_groupby_sum_total].
  rewrite dt_total_amount_exact by done.
  rewrite <- (groupby_sum_total Month f).
  apply dt_series_sum_perm_exact; [done|].
  unfold Dtype.monthly_totals.
  rewrite merge_sort_Permutation. unfold Dtype.with_month_num.
  rewrite map_map. cbn [fst snd].
  rewrite dt_groupby_sum_exact by done. by rewrite !map_map.
Qed.

Lemma exact_group_totals_conserve_total_witness :
  exact int64 ∧ group_totals_conserve_total int64 rounding_df only_jan.
Proof.
  split; [exact int64_exact|].
  exact (exact_group_totals_conserve_total int64 rounding_df only_jan int64_exact).
Defined.

(** * Further properties of the script *)

(** ** The options of the sidebar (lines 30-39) *)

Lemma StronglySorted_NoDup_strict {A} (R : relation A) (l : list A) :
  NoDup l → StronglySorted R l → StronglySorted (fun a b => R a b ∧ a ≠ b) l.
Proof.
  intros Hnd Hs. induction Hs as [|x l Hs IH Hx]; constructor.
  - apply IH. by eapply NoDup_cons_1_2.
  - apply NoDup_cons in Hnd as [Hnin _].
    apply Forall_forall. intros y Hy. split.
    + rewrite Forall_forall in Hx. by apply Hx.
    + by intros ->.
Qed.

Lemma StronglySorted_reverse {A} (R : relation A) (l : list A) :
  StronglySorted R l → StronglySorted (flip R) (reverse l).
Proof.
  induction 1 as [|x l Hs IH Hx]; [rewrite reverse_nil; constructor|].
  rewrite reverse_cons. apply StronglySorted_app_2.
  - intros x1 x2 Hx1 ->%list_elem_of_singleton.
    rewrite elem_of_reverse in Hx1.
    rewrite Forall_forall in Hx. unfold flip. by apply Hx.
  - done.
  - repeat constructor.
Qed.

Lemma StronglySorted_impl {A} (R1 R2 : relation A) (l : list A) :
  (∀ x y, R1 x y → R2 x y) → StronglySorted R1 l → StronglySorted R2 l.
Proof.
  intros HR. induction 1 as [|x l Hs IH Hx]; constructor; [done|].
  eapply Forall_impl; [done|]. auto.
Qed.

(** X1. Line 30. The years offered by the year box are the years that occur
    in the cleaned frame, each once, the latest first. *)
Theorem year_options_latest_first (df : list row) :
  StronglySorted (fun a b => b < a) (year_options df) ∧
  ∀ y, y ∈ year_options df ↔ ∃ r, r ∈ df ∧ Year r = y.
Proof.
  unfold year_options. split.
  - apply (StronglySorted_impl (flip (fun a b => a ≤ b ∧ a ≠ b))).
    { unfold flip. intros x y. lia. }
    apply StronglySorted_reverse, StronglySorted_NoDup_strict.
    + rewrite merge_sort_Permutation. apply NoDup_unique.
    + apply (StronglySorted_merge_sort _).
  - intros y. rewrite elem_of_reverse, merge_sort_Permutation, elem_of_unique.
    change (map Year df) with (Year <$> df). rewrite list_elem_of_fmap.
    split; intros (r & H1 & H2); by exists r.
Qed.

Lemma str_lt_asym a b : str_lt a b → str_lt b a → False.
Proof. intros Hab Hba. apply (str_lt_irrefl a). by eapply str_lt_trans. Qed.

(** Two strictly ascending lists of strings with the same elements are
    equal. *)
Lemma strictly_sorted_eq (l1 l2 : list string) :
  StronglySorted str_lt l1 → StronglySorted str_lt l2 →
  (∀ x, x ∈ l1 ↔ x ∈ l2) → l1 = l2.
Proof.
  intros H1 H2 Hel. apply (StronglySorted_unique_strong str_lt); try done.
  - intros x1 x2 _ _ Ha Hb. destruct (str_lt_asym _ _ Ha Hb).
  - assert (∀ l, StronglySorted str_lt l → NoDup l) as Hnd.
    { induction 1 as [|x l Hs IH Hx]; constructor; [|done].
      intros Hin. rewrite Forall_forall in Hx.
      by apply (str_lt_irrefl x), Hx. }
    apply NoDup_Permutation; auto.
Qed.

(** X2. Line 33, with lines 58-65. The account codes offered are the codes of
    the rows of the selected year, not of the whole frame, each once, in
    strictly ascending order; the rows of the pivot are the offered codes
    that still have a row in the filtered subset, in the order offered. *)
Theorem account_codes_of_the_year (df : list row) (sel : selection) :
  let dfy := df_year df (selected_year sel) in
  let f := filtered df sel in
  StronglySorted str_lt (account_codes dfy) ∧
  (∀ c, c ∈ account_codes dfy ↔
        ∃ r, r ∈ df ∧ Year r = selected_year sel ∧ Account_Code r = c) ∧
  ∀ sm, index (pivot f sm) =
        List.filter (fun c => bool_decide (c ∈ map Account_Code f)) (account_codes dfy) ∧
        index (pivot f sm) `sublist_of` account_codes dfy.
Proof.
  intros dfy f.
  assert (∀ c, c ∈ account_codes dfy ↔
               ∃ r, r ∈ df ∧ Year r = selected_year sel ∧ Account_Code r = c) as Hel.
  { intros c. unfold account_codes. rewrite elem_of_sorted_str, elem_of_unique.
    change (map Account_Code dfy) with (Account_Code <$> dfy).
    rewrite list_elem_of_fmap. unfold dfy. split.
    - intros (r & -> & [Hr Hy]%elem_of_df_year). by exists r.
    - intros (r & Hr & Hy & <-). exists r. by rewrite elem_of_df_year. }
  assert (∀ sm, index (pivot f sm) =
            List.filter (fun c => bool_decide (c ∈ map Account_Code f)) (account_codes dfy))
    as Hidx.
  { intros sm. unfold pivot. simpl. apply strictly_sorted_eq.
    - apply sorted_unique_strict.
    - apply StronglySorted_filter_bool, sorted_unique_strict.
    - intros c. rewrite elem_of_sorted_str, elem_of_unique, elem_of_filter_bool.
      rewrite bool_decide_eq_true, Hel.
      change (map Account_Code f) with (Account_Code <$> f).
      rewrite list_elem_of_fmap. split; [|tauto].
      intros (r & -> & Hr). split; [|by exists r].
      apply elem_of_filtered in Hr as (? & ? & _). by exists r. }
  split_and!.
  - apply sorted_unique_strict.
  - done.
  - intros sm. split; [done|]. rewrite Hidx. apply filter_sublist.
Qed.

Lemma months_of_length f : (length (months_of f) ≤ 12)%nat.
Proof.
  unfold months_of.
  etransitivity; [apply List.filter_length_le|]. done.
Qed.

(** X3. Lines 36 and 38. The month options are the distinct month labels of
    the rows of the year; line 38 never raises and only reorders them, so
    [sorted_months] holds the same labels, each once, at most twelve. *)
Theorem sorted_months_reorders_month_options (dfy : list row) :
  NoDup (month_options dfy) ∧
  (∀ m, m ∈ month_options dfy ↔ ∃ r, r ∈ dfy ∧ Month r = m) ∧
  ∃ sm, sorted_months dfy = Some sm ∧
        sm ≡ₚ month_options dfy ∧
        NoDup sm ∧
        (length sm ≤ 12)%nat.
Proof.
  split_and!.
  - apply NoDup_unique.
  - intros m. unfold month_options. rewrite elem_of_unique.
    change (map Month dfy) with (Month <$> dfy). rewrite list_elem_of_fmap.
    split; intros (r & H1 & H2); by exists r.
  - exists (map month_abbr (months_of dfy)). split_and!.
    + apply sorted_months_spec.
    + symmetry. apply unique_months_perm.
    + apply month_labels_NoDup.
    + rewrite length_map. apply months_of_length.
Qed.

(** X4. Line 37. The dictionary holds, for each month label of the year, the
    number of that month, whichever row wrote it last; a label without a
    row in the year is a missing key; there is one key per month option,
    and every number lies between 1 and 12. *)
Theorem month_map_holds_the_month_numbers (dfy : list row) :
  (∀ k n, month_map dfy !! k = Some n ↔ ∃ r, r ∈ dfy ∧ Month r = k ∧ Month_Num r = n) ∧
  (∀ k, month_map dfy !! k = None ↔ k ∉ month_options dfy) ∧
  size (month_map dfy) = length (month_options dfy) ∧
  (∀ k n, month_map dfy !! k = Some n → (1 ≤ n ≤ 12)%nat).
Proof.
  assert (∀ k, is_Some (month_map dfy !! k) ↔ k ∈ month_options dfy) as Hdom.
  { intros k. unfold month_options. rewrite elem_of_unique.
    change (map Month dfy) with (Month <$> dfy). rewrite list_elem_of_fmap. split.
    - intros [n (r & Hr & Hk & _)%month_map_lookup]. by exists r.
    - intros (r & -> & Hr). exists (Month_Num r). by apply month_map_lookup_row. }
  split_and!.
  - apply month_map_lookup.
  - intros k. rewrite <- Hdom, eq_None_not_Some. done.
  - rewrite <- size_dom, <- (size_list_to_set (C := gset string)) by apply NoDup_unique.
    f_equal. apply set_eq. intros k.
    by rewrite elem_of_dom, elem_of_list_to_set, Hdom.
  - intros k n (r & _ & _ & <-)%month_map_lookup.
    unfold Month_Num. destruct (d_month (Transaction_Date r)); simpl; lia.
Qed.

Lemma StronglySorted_map_in {A B} (R1 : relation A) (R2 : relation B) (f : A → B) l :
  (∀ x y, x ∈ l → y ∈ l → R1 x y → R2 (f x) (f y)) →
  StronglySorted R1 l → StronglySorted R2 (map f l).
Proof.
  intros HR Hs. induction Hs as [|x l Hs IH Hx]; simpl; constructor.
  - apply IH. intros a b Ha Hb. apply HR; by right.
  - rewrite Forall_forall in Hx. apply Forall_forall.
    intros y (a & -> & Ha)%(list_elem_of_fmap_1 f l y).
    apply HR; [by left|by right|by apply Hx].
Qed.

Lemma Forall2_elem_of_zip {A B} (P : A → B → Prop) (l : list A) (k : list B) x y :
  Forall2 P l k → (x, y) ∈ zip l k → P x y.
Proof.
  induction 1 as [|a b l k Hab _ IH]; simpl; [by intros ?%elem_of_nil|].
  intros [[= -> ->]|?]%elem_of_cons; auto.
Qed.

(** X5. Line 38, in general. Sorting labels by a dictionary raises KeyError
    exactly when one of the labels is not a key; otherwise the result holds
    the same labels, arranged by ascending value. *)
Theorem sorted_by_map_key_error (mm : gmap string nat) (l : list string) :
  (sorted_by_map mm l = None ↔ ∃ m, m ∈ l ∧ mm !! m = None) ∧
  ∀ sm, sorted_by_map mm l = Some sm →
        sm ≡ₚ l ∧
        StronglySorted
          (fun a b => ∃ x y, mm !! a = Some x ∧ mm !! b = Some y ∧ (x ≤ y)%nat) sm.
Proof.
  unfold sorted_by_map. split.
  - rewrite <- Exists_exists, <- mapM_None.
    by destruct (mapM (fun m => mm !! m) l).
  - intros sm Hsm.
    destruct (mapM (fun m => mm !! m) l) as [ks|] eqn:E; simpl in Hsm; [|discriminate Hsm].
    injection Hsm as <-. apply mapM_Some_1 in E. split.
    + rewrite merge_sort_Permutation.
      change (map fst (zip l ks)) with ((zip l ks).*1).
      rewrite fst_zip; [done|]. by rewrite (Forall2_length _ _ _ E).
    + apply (StronglySorted_map_in key_le); [|apply (StronglySorted_merge_sort _)].
      intros [a x] [b y] Ha Hb Hab. rewrite merge_sort_Permutation in Ha, Hb.
      exists x, y. split_and!; [by eapply (Forall2_elem_of_zip _ _ _ _ _ E)..|done].
Qed.

(** A label that is not a key: the sort raises. *)
Example sorted_by_map_missing_key :
  sorted_by_map (month_map sample_df) ["Feb"; "Mar"; "Jan"] = None ∧
  sorted_by_map (month_map sample_df) ["Feb"; "Jan"] = Some ["Jan"; "Feb"].
Proof. by vm_compute. Qed.

Lemma filter_bool_all {A} (P : A → bool) (l : list A) :
  (∀ x, x ∈ l → P x = true) → List.filter P l = l.
Proof.
  induction l as [|x l IH]; intros H; simpl; [done|].
  rewrite H by left. f_equal. apply IH. intros y Hy. apply H. by right.
Qed.

(** X6. Lines 34 and 39, with lines 42-45 and 66. While the user has not
    touched the two multiselects, the filter keeps every row of the
    selected year, and the month columns of the pivot are the selected
    months; the selection is a valid one when the year is one of the
    year options. *)
Theorem default_selection_keeps_the_year (df : list row) (y : Z) :
  ∃ sel, default_selection df y = Some sel ∧
         selected_year sel = y ∧
         filtered df sel = df_year df y ∧
         columns_are_selected_months df sel ∧
         (y ∈ year_options df → valid_selection df sel).
Proof.
  unfold default_selection. rewrite sorted_months_spec. simpl.
  eexists. split; [done|]. split; [done|]. split_and!.
  - unfold filtered, filtered_df. simpl. apply filter_bool_all.
    intros r Hr. unfold isin. rewrite andb_true_iff, !bool_decide_eq_true. split.
    + apply elem_of_sorted_str, elem_of_unique.
      change (map Account_Code ?l) with (Account_Code <$> l).
      apply list_elem_of_fmap. by exists r.
    + apply elem_of_month_labels. change (map Month ?l) with (Month <$> l).
      apply list_elem_of_fmap. by exists r.
  - unfold columns_are_selected_months. cbn [selected_year selected_months]. intros sm.
    rewrite sorted_months_spec. intros [= <-].
    rewrite pivot_closed_form by apply Total_not_month. simpl.
    rewrite map_app, map_map. simpl. by rewrite map_id.
  - intros Hy. split_and!; [done|done|]. simpl.
    eexists. split; [apply sorted_months_spec|done].
Qed.

(** ** The filter and the cleaning, composed *)

Lemma filter_bool_sublist_impl {A} (P Q : A → bool) (l : list A) :
  (∀ x, x ∈ l → P x = true → Q x = true) →
  List.filter P l `sublist_of` List.filter Q l.
Proof.
  induction l as [|x l IH]; intros H; simpl; [constructor|].
  assert (List.filter P l `sublist_of` List.filter Q l) as IH'.
  { apply IH. intros y Hy. apply H. by right. }
  destruct (P x) eqn:HP.
  - rewrite (H x) by (done || left). by constructor.
  - destruct (Q x); [by constructor|done].
Qed.

(** X7. Lines 42-45. The filter depends only on which codes and months are
    selected, not on the order in which they were picked nor on
    repetitions: selecting more keeps the rows kept before, in the same
    order, and two selections with the same members keep the same rows. *)
Theorem filter_grows_with_the_selection
    (dfy : list row) (codes codes' months months' : list string) :
  codes ⊆ codes' → months ⊆ months' →
  filtered_df dfy codes months `sublist_of` filtered_df dfy codes' months' ∧
  (length (filtered_df dfy codes months) ≤ length (filtered_df dfy codes' months'))%nat ∧
  (codes' ⊆ codes → months' ⊆ months →
   filtered_df dfy codes months = filtered_df dfy codes' months').
Proof.
  intros Hc Hm.
  assert (filtered_df dfy codes months `sublist_of` filtered_df dfy codes' months') as Hsub.
  { apply filter_bool_sublist_impl. intros r _. unfold isin.
    rewrite !andb_true_iff, !bool_decide_eq_true. intros [? ?]. split; auto. }
  split_and!; [done|by apply sublist_length|].
  intros Hc' Hm'. apply filter_ext. intros r. unfold isin.
  f_equal; apply bool_decide_ext; split; auto.
Qed.

Lemma filter_grows_with_the_selection_witness :
  filtered_df sample_df ["A100"] ["Jan"] `sublist_of`
    filtered_df sample_df ["B200"; "A100"; "A100"] ["Feb"; "Jan"] ∧
  (length (filtered_df sample_df ["A100"] ["Jan"])
   ≤ length (filtered_df sample_df ["B200"; "A100"; "A100"] ["Feb"; "Jan"]))%nat ∧
  (["B200"; "A100"; "A100"] ⊆ ["A100"] → ["Feb"; "Jan"] ⊆ ["Jan"] →
   filtered_df sample_df ["A100"] ["Jan"] =
   filtered_df sample_df ["B200"; "A100"; "A100"] ["Feb"; "Jan"]).
Proof.
  apply (filter_grows_with_the_selection sample_df
           ["A100"] ["B200"; "A100"; "A100"] ["Jan"] ["Feb"; "Jan"]);
    apply (bool_decide_unpack _); vm_compute; exact I.
Defined.

(** X8. Lines 31 and 42-45. Filtering what a selection kept with the same
    selection keeps all of it; the rows kept all lie in the selected year,
    so any other year finds none of them. *)
Theorem filter_is_idempotent (df : list row) (sel : selection) :
  filtered (filtered df sel) sel = filtered df sel ∧
  df_year (filtered df sel) (selected_year sel) = filtered df sel ∧
  ∀ y, y ≠ selected_year sel → df_year (filtered df sel) y = [].
Proof.
  assert (df_year (filtered df sel) (selected_year sel) = filtered df sel) as Hy.
  { apply filter_bool_all. intros r (_ & Hr & _)%elem_of_filtered.
    by apply bool_decide_eq_true. }
  split_and!.
  - unfold filtered at 1. rewrite Hy. apply filter_bool_all.
    intros r (_ & _ & ? & ?)%elem_of_filtered. unfold isin.
    by rewrite andb_true_iff, !bool_decide_eq_true.
  - done.
  - intros y Hne. apply filter_bool_nil. intros r (_ & Hr & _)%elem_of_filtered.
    apply bool_decide_eq_false. congruence.
Qed.

(** ** Years and dates *)

Lemma filter_key_split {K} `{EqDecision K} (key : row → K) (k : K) (ks : list K)
    (l : list row) :
  k ∉ ks →
  List.filter (fun r => bool_decide (key r = k)) l
  ++ List.filter (fun r => bool_decide (key r ∈ ks)) l
  ≡ₚ List.filter (fun r => bool_decide (key r ∈ k :: ks)) l.
Proof.
  intros Hk. induction l as [|r l IH]; simpl; [done|].
  destruct (decide (key r = k)) as [Hr|Hr].
  - rewrite bool_decide_eq_true_2 by done.
    rewrite (bool_decide_eq_false_2 (key r ∈ ks)) by (by rewrite Hr).
    rewrite (bool_decide_eq_true_2 (key r ∈ k :: ks)) by (rewrite Hr; left).
    simpl. by rewrite IH.
  - rewrite bool_decide_eq_false_2 by done.
    destruct (decide (key r ∈ ks)) as [Hin|Hin].
    + rewrite (bool_decide_eq_true_2 (key r ∈ ks)) by done.
      rewrite (bool_decide_eq_true_2 (key r ∈ k :: ks)) by (by right).
      rewrite <- Permutation_middle. by rewrite IH.
    + rewrite (bool_decide_eq_false_2 (key r ∈ ks)) by done.
      rewrite (bool_decide_eq_false_2 (key r ∈ k :: ks)); [done|].
      intros [?|?]%elem_of_cons; done.
Qed.

(** The groups of distinct keys that cover the rows hold every row once. *)
Lemma groups_partition {K} `{EqDecision K} (key : row → K) (ks : list K) (l : list row) :
  NoDup ks → (∀ r, r ∈ l → key r ∈ ks) →
  concat (map (fun k => List.filter (fun r => bool_decide (key r = k)) l) ks) ≡ₚ l.
Proof.
  intros Hnd Hcover.
  transitivity (List.filter (fun r => bool_decide (key r ∈ ks)) l).
  2:{ rewrite filter_bool_all; [done|].
      intros r Hr. apply bool_decide_eq_true. by apply Hcover. }
  clear Hcover. induction Hnd as [|k ks Hk Hnd IH]; simpl.
  - symmetry. rewrite filter_bool_nil; [done|].
    done.
  - rewrite IH. by apply filter_key_split.
Qed.

(** X11. Lines 30-31. The year options split the cleaned frame: every option
    has at least one row, a year that is no option has none, and over all
    options the frames of the years hold every row of the frame exactly
    once, so their sizes add up to the size of the frame. *)
Theorem years_partition_the_frame (df : list row) :
  (∀ y, y ∈ year_options df → df_year df y ≠ []) ∧
  (∀ y, y ∉ year_options df → df_year df y = []) ∧
  concat (map (df_year df) (year_options df)) ≡ₚ df ∧
  length (concat (map (df_year df) (year_options df))) = length df.
Proof.
  assert (∀ y, y ∈ year_options df ↔ ∃ r, r ∈ df ∧ Year r = y) as Hel.
  { intros y. unfold year_options.
    rewrite elem_of_reverse, merge_sort_Permutation, elem_of_unique.
    change (map Year df) with (Year <$> df). rewrite list_elem_of_fmap.
    split; intros (r & H1 & H2); by exists r. }
  assert (NoDup (year_options df)) as Hnd.
  { unfold year_options.
    rewrite reverse_Permutation, merge_sort_Permutation. apply NoDup_unique. }
  assert (concat (map (df_year df) (year_options df)) ≡ₚ df) as Hperm.
  { apply (groups_partition Year (year_options df) df Hnd).
    intros r Hr. apply Hel. by exists r. }
  split_and!.
  - intros y (r & Hr & Hy)%Hel Hnil.
    assert (r ∈ df_year df y) as Hin by by apply elem_of_df_year.
    rewrite Hnil in Hin. by apply elem_of_nil in Hin.
  - intros y Hy. apply filter_bool_nil. intros r Hr.
    apply bool_decide_eq_false. intros Hr'. apply Hy, Hel. by exists r.
  - done.
  - by rewrite Hperm.
Qed.

(** X12. Lines 22-24. The three derived columns agree with one another: two
    rows have the same month label exactly when they have the same month
    number, the number lies between 1 and 12, and the label has three
    characters. *)
Theorem derived_columns_are_consistent (r1 r2 : row) :
  (Month r1 = Month r2 ↔ Month_Num r1 = Month_Num r2) ∧
  (1 ≤ Month_Num r1 ≤ 12)%nat ∧
  String.length (Month r1) = 3%nat.
Proof.
  unfold Month, Month_Num. split_and!.
  - split; intros H.
    + f_equal. by apply (inj month_abbr).
    + f_equal. by apply (inj month_number).
  - destruct (d_month (Transaction_Date r1)); simpl; lia.
  - destruct (d_month (Transaction_Date r1)); simpl; lia.
  - destruct (d_month (Transaction_Date r1)); reflexivity.
Qed.

(** ** The pivot, the chart series and each other *)

Lemma pivot_get_Total f sm :
  get_column "Total" (columns (pivot f sm)) =
  Some (map (row_total f sm) (sorted_str (unique (map Account_Code f)))).
Proof.
  unfold pivot. rewrite reindex_pivot_table.
  rewrite (sum_axis1_map (cell_amount f)). unfold setitem. cbn [index columns].
  apply get_set_column.
Qed.

Lemma pivot_get_month f ms m :
  m ∈ map month_abbr ms →
  get_column m (columns (pivot f (map month_abbr ms))) =
  Some (map (fun c => cell_amount f c m) (sorted_str (unique (map Account_Code f)))).
Proof.
  intros Hm. rewrite pivot_closed_form by apply Total_not_month. simpl.
  rewrite get_column_app.
  rewrite (get_column_map (fun m => map (fun c => cell_amount f c m) _)).
  by rewrite decide_True.
Qed.





(** One account code with 10^16 and -10^16 in January and 1 in February:
    on an int64 column the pie chart and the Total column both hold 1; on
    a float64 column the pie chart holds (10^16 + 1) - 10^16 = 0.0 and the
    Total column (10^16 - 10^16) + 1 = 1.0. *)
Example code_total_and_row_total :
  Dtype.code_totals int64 (filtered cancelling_df a100_jan_feb) = [("A100", 1)] ∧
  Dtype.get_column int64 "Total"
    (Dtype.columns int64 (Dtype.pivot int64 (filtered cancelling_df a100_jan_feb) ["Jan"; "Feb"]))
  = Some [1] ∧
  Dtype.code_totals float64 (filtered cancelling_df a100_jan_feb) = [("A100", PrimFloat.zero)] ∧
  Dtype.get_column float64 "Total"
    (Dtype.columns float64 (Dtype.pivot float64 (filtered cancelling_df a100_jan_feb) ["Jan"; "Feb"]))
  = Some [PrimFloat.one].
Proof. by vm_compute. Qed.



(** The January rows 10^16 (A100), 1 (B200), -10^16 (A100): on an int64
    column the bar of January and the sum of the column Jan are both 1; on
    a float64 column the bar is (10^16 + 1) - 10^16 = 0.0 and the column
    Jan holds 0.0 and 1.0. *)
Example monthly_total_and_column_sum :
  map (fun x => x.1) (Dtype.monthly_totals int64 (filtered rounding_df only_jan)
                        (month_map (df_year rounding_df 2024))) = [("Jan", 1)] ∧
  Dtype.get_column int64 "Jan"
    (Dtype.columns int64 (Dtype.pivot int64 (filtered rounding_df only_jan) ["Jan"]))
  = Some [0; 1] ∧
  map (fun x => x.1) (Dtype.monthly_totals float64 (filtered rounding_df only_jan)
                        (month_map (df_year rounding_df 2024))) = [("Jan", PrimFloat.zero)] ∧
  Dtype.get_column float64 "Jan"
    (Dtype.columns float64 (Dtype.pivot float64 (filtered rounding_df only_jan) ["Jan"]))
  = Some [PrimFloat.zero; PrimFloat.one].
Proof. by vm_compute. Qed.

Lemma set_column_Forall (P : string * list Z → Prop) label values cols :
  Forall P cols → P (label, values) → Forall P (set_column label values cols).
Proof.
  intros Hcols HP. induction Hcols as [|[l v] cols Hlv Hcols IH]; simpl.
  - by repeat constructor.
  - destruct (decide (l = label)) as [->|Hne]; by constructor.
Qed.

(** X15. Lines 58-67. The pivot is rectangular, whatever labels it is
    reindexed with: every column, Total included, has one value per row.
    With the labels of line 38 no two columns share a label. *)
Theorem pivot_is_rectangular (df : list row) (sel : selection) :
  let f := filtered df sel in
  (∀ labels, Forall (fun col => length col.2 = length (index (pivot f labels)))
                    (columns (pivot f labels))) ∧
  ∃ sm, sorted_months (df_year df (selected_year sel)) = Some sm ∧
        NoDup (map fst (columns (pivot f sm))).
Proof.
  intros f. split.
  - intros labels. unfold pivot. rewrite reindex_pivot_table.
    rewrite (sum_axis1_map (cell_amount f)). unfold setitem. cbn [index columns].
    apply set_column_Forall.
    + apply Forall_forall. intros col (m & -> & _)%(list_elem_of_fmap_1 _ _ _).
      cbn [snd]. by rewrite length_map.
    + cbn [snd]. by rewrite length_map.
  - exists (map month_abbr (months_of (df_year df (selected_year sel)))).
    split; [apply sorted_months_spec|].
    rewrite pivot_closed_form by apply Total_not_month. simpl.
    rewrite map_app, map_map. simpl. rewrite map_id.
    apply NoDup_app. split_and!.
    + apply month_labels_NoDup.
    + intros m Hm ->%list_elem_of_singleton. by apply Total_not_month in Hm.
    + apply NoDup_singleton.
Qed.

(** X16. Lines 58-66. The table of line 58 has one column per month of the
    subset, in the order of the labels as strings; the reindexing of line
    66 drops none of them: each reappears, with the same values, among the
    columns of the finished pivot. *)
Theorem reindex_keeps_every_month_with_data (df : list row) (sel : selection) :
  let f := filtered df sel in
  StronglySorted str_lt (map fst (columns (pivot_table f 0))) ∧
  (∀ m, m ∈ map fst (columns (pivot_table f 0)) ↔ ∃ r, r ∈ f ∧ Month r = m) ∧
  ∃ sm, sorted_months (df_year df (selected_year sel)) = Some sm ∧
        ∀ m col, get_column m (columns (pivot_table f 0)) = Some col →
                 m ∈ sm ∧ get_column m (columns (pivot f sm)) = Some col.
Proof.
  intros f.
  assert (map fst (columns (pivot_table f 0)) = sorted_str (unique (map Month f))) as Hlabels.
  { unfold pivot_table. simpl. rewrite map_map. simpl. apply map_id. }
  split_and!.
  - rewrite Hlabels. apply sorted_unique_strict.
  - intros m. rewrite Hlabels, elem_of_sorted_str, elem_of_unique.
    change (map Month f) with (Month <$> f). rewrite list_elem_of_fmap.
    split; intros (r & H1 & H2); by exists r.
  - exists (map month_abbr (months_of (df_year df (selected_year sel)))).
    split; [apply sorted_months_spec|].
    intros m col. unfold pivot_table. cbn [columns].
    rewrite (get_column_map (fun m => map (fun c => pivot_cell f 0 c m) _)).
    case_decide as Hm; [|done]. intros [= <-].
    rewrite elem_of_sorted_str, elem_of_unique in Hm.
    change (map Month f) with (Month <$> f) in Hm.
    apply list_elem_of_fmap in Hm as (r & -> & Hr).
    pose proof (filtered_months_covered _ _ _ Hr) as Hin.
    split; [done|]. rewrite pivot_get_month by done.
    f_equal. apply map_ext. intros c. symmetry. apply pivot_cell_0.
Qed.

(** ** A year without rows *)

Lemma df_year_no_rows rows y : y ∉ year_options rows → df_year rows y = [].
Proof.
  intros Hy. apply filter_bool_nil. intros r Hr.
  apply bool_decide_eq_false. intros Hr'. apply Hy.
  unfold year_options. rewrite elem_of_reverse, merge_sort_Permutation, elem_of_unique.
  change (map Year rows) with (Year <$> rows). apply list_elem_of_fmap. by exists r.
Qed.

(** X17. Lines 31-97. For a year without a row in the cleaned frame, the frame
    without any row included, the pass still completes; it reports no
    transaction, total 0, average NaN, no monthly and no code totals, and a
    pivot without rows whose only column is Total. *)
Theorem year_without_rows_gives_the_empty_report
    (h : list Script.frame) (df : nat) (rows : list row) (sel : selection) :
  h !! df = Some (Script.Transactions rows) →
  selected_year sel ∉ year_options rows →
  ∃ o h', Script.run df sel h = Some (o, h') ∧
          Script.view o h' = Some (empty_report, h').
Proof.
  intros H Hy. eexists _, _. split; [by apply run_spec|].
  rewrite view_spec. do 2 f_equal.
  unfold expected_report, filtered. rewrite (df_year_no_rows _ _ Hy). reflexivity.
Qed.

Lemma year_without_rows_gives_the_empty_report_witness :
  ∃ o h', Script.run 0 year_1999 [Script.Transactions sample_df] = Some (o, h') ∧
          Script.view o h' = Some (empty_report, h').
Proof.
  apply (year_without_rows_gives_the_empty_report
           [Script.Transactions sample_df] 0 sample_df year_1999).
  - reflexivity.
  - apply (bool_decide_unpack _). vm_compute. exact I.
Defined.

(** ** The names of the export (lines 103 and 109) *)

Lemma str_length_append (a b : string) :
  String.length (String.append a b) = (String.length a + String.length b)%nat.
Proof. induction a as [|c a IH]; simpl; [done|]. by rewrite IH. Qed.

Lemma str_append_inj_r (a b t : string) :
  String.append a t = String.append b t → a = b.
Proof.
  revert b. induction a as [|c a IH]; intros [|c' b] H; simpl in H.
  - done.
  - apply (f_equal String.length) in H.
    rewrite ?str_length_append in H. simpl in H. rewrite ?str_length_append in H. lia.
  - apply (f_equal String.length) in H.
    rewrite ?str_length_append in H. simpl in H. rewrite ?str_length_append in H. lia.
  - injection H as -> H. f_equal. by apply IH.
Qed.

Lemma str_of_year_parses (y : Z) :
  DecimalString.NilZero.int_of_string (str_of_year y) = Some (Z.to_int y).
Proof.
  unfold str_of_year. apply DecimalString.NilZero.isi.
  - destruct y; simpl; try discriminate.
    intros [= H]. by apply DecimalPos.Unsigned.to_uint_nonnil in H.
  - destruct y; simpl; try discriminate.
    intros [= H]. by apply DecimalPos.Unsigned.to_uint_nonnil in H.
Qed.

(** X19. Lines 103 and 109. The year can be read back from the decimal digits
    in the names, so two exports carry the same file name, or the same
    sheet name, exactly when they are of the same year. *)
Theorem export_names_identify_the_year (p p' : pivot_frame) (y y' : Z) :
  option_map Z.of_int (DecimalString.NilZero.int_of_string (str_of_year y)) = Some y ∧
  (file_name (export p y) = file_name (export p' y') ↔ y = y') ∧
  (map fst (data (export p y)) = map fst (data (export p' y')) ↔ y = y').
Proof.
  assert (str_of_year y = str_of_year y' → y = y') as Hinj.
  { intros H. apply DecimalZ.to_int_inj.
    pose proof (str_of_year_parses y) as H1. rewrite H, str_of_year_parses in H1.
    by injection H1. }
  split_and!.
  - rewrite str_of_year_parses. simpl. by rewrite DecimalZ.of_to.
  - split; [|by intros ->]. unfold export. cbn [file_name]. intros H.
    apply Hinj, (str_append_inj_r _ _ ".xlsx").
    cbv [String.append] in H. injection H as H. exact H.
  - split; [|by intros ->]. unfold export. cbn [data map fst]. intros H.
    apply Hinj. cbv [String.append] in H. injection H as H. exact H.
Qed.

(** ** The text of the count (line 50) *)

Lemma commas_rev_ind (P : list ascii → Prop) :
  P [] → (∀ a, P [a]) → (∀ a b, P [a; b]) → (∀ a b c, P [a; b; c]) →
  (∀ a b c d rest, P (d :: rest) → P (a :: b :: c :: d :: rest)) →
  ∀ l, P l.
Proof.
  intros H0 H1 H2 H3 Hstep l.
  assert (∀ n l, (length l ≤ n)%nat → P l) as Hall; [|by apply (Hall (length l))].
  clear l. induction n as [|n IH]; intros l Hlen.
  - destruct l; [done|simpl in Hlen; lia].
  - destruct l as [|a [|b [|c [|d rest]]]]; auto.
    apply Hstep, IH. simpl in Hlen. simpl. lia.
Qed.

Lemma commas_rev_step a b c d rest :
  commas_rev (a :: b :: c :: d :: rest) = a :: b :: c :: ","%char :: commas_rev (d :: rest).
Proof. done. Qed.

Lemma filter_commas_rev (l : list ascii) :
  Forall (fun c => not_comma c = true) l → List.filter not_comma (commas_rev l) = l.
Proof.
  induction l as [|a|a b|a b c|a b c d rest IH] using commas_rev_ind; intros Hl.
  - done.
  - simpl. by rewrite (Forall_inv Hl).
  - apply filter_bool_all. intros x Hx. rewrite Forall_forall in Hl. by apply Hl.
  - apply filter_bool_all. intros x Hx. rewrite Forall_forall in Hl. by apply Hl.
  - rewrite commas_rev_step.
    apply Forall_cons in Hl as [Ha Hl]. apply Forall_cons in Hl as [Hb Hl].
    apply Forall_cons in Hl as [Hc Hl].
    cbn [List.filter]. rewrite Ha, Hb, Hc. cbn [not_comma Ascii.eqb negb].
    change (List.filter not_comma (","%char :: ?t)) with (List.filter not_comma t).
    by rewrite IH.
Qed.

Lemma length_commas_rev (l : list ascii) :
  length (commas_rev l) = (length l + (length l - 1) / 3)%nat.
Proof.
  induction l as [|a|a b|a b c|a b c d rest IH] using commas_rev_ind; try done.
  rewrite commas_rev_step. cbn [length] in *. rewrite IH.
  replace (S (S (S (S (length rest)))) - 1)%nat with (1 * 3 + (S (length rest) - 1))%nat by lia.
  rewrite Nat.div_add_l by done. lia.
Qed.

(** From the right, every fourth character is a comma and the others are
    the digits in their order. *)
Lemma lookup_commas_rev (l : list ascii) (i : nat) :
  (i < length (commas_rev l))%nat →
  commas_rev l !! i
  = if (i mod 4 =? 3)%nat then Some ","%char else l !! (i - i / 4)%nat.
Proof.
  revert i.
  induction l as [|a|a b|a b c|a b c d rest IH] using commas_rev_ind; intros i Hi.
  - simpl in Hi. lia.
  - destruct i as [|i]; [done|]. simpl in Hi. lia.
  - destruct i as [|[|i]]; [done..|]. simpl in Hi. lia.
  - destruct i as [|[|[|i]]]; [done..|]. simpl in Hi. lia.
  - rewrite commas_rev_step in *.
    destruct i as [|[|[|[|j]]]]; [done..|].
    change ((a :: b :: c :: ","%char :: commas_rev (d :: rest)) !! S (S (S (S j))))
      with (commas_rev (d :: rest) !! j).
    rewrite IH by (cbn [length] in Hi; lia).
    replace (S (S (S (S j)))) with (j + 1 * 4)%nat by lia.
    rewrite Nat.Div0.mod_add, Nat.div_add by done.
    destruct (j mod 4 =? 3)%nat; [done|].
    assert (j / 4 ≤ j)%nat as Hle by (apply Nat.Div0.div_le_upper_bound; lia).
    replace (j + 1 * 4 - (j / 4 + 1))%nat with (S (S (S (j - j / 4)))) by lia.
    done.
Qed.

Lemma uint_digits_not_comma (d : Decimal.uint) :
  Forall (fun c => not_comma c = true)
         (list_ascii_of_string (DecimalString.NilEmpty.string_of_uint d)).
Proof. induction d; simpl; by constructor. Qed.

Lemma digits_not_comma (n : nat) : Forall (fun c => not_comma c = true) (digits n).
Proof.
  unfold digits, DecimalString.NilZero.string_of_uint.
  destruct (Nat.to_uint n) eqn:E; rewrite <- ?E;
    first [apply uint_digits_not_comma | by repeat constructor].
Qed.

Lemma uint_of_digits (n : nat) :
  option_map Nat.of_uint
    (DecimalString.NilZero.uint_of_string
       (DecimalString.NilZero.string_of_uint (Nat.to_uint n))) = Some n.
Proof.
  pose proof (DecimalNat.Unsigned.of_to n) as Hn.
  destruct (Nat.to_uint n) eqn:E;
    [rewrite DecimalString.NilZero.usu_nil
    |rewrite DecimalString.NilZero.usu by done ..];
    simpl; simpl in Hn; by f_equal.
Qed.

(** X20. Line 50. The text of the count is its decimal digits with a comma
    before every group of three digits counted from the right: read from
    the right, the characters at the positions 3, 7, 11, ... are commas
    and the others are the digits of the count in their order, and a count
    of [k] digits is shown with [(k - 1) / 3] commas, so no comma leads
    the text.  Taking the commas out leaves the digits, from which the
    count reads back. *)
Theorem count_text_reads_back (f : list row) :
  without_commas (total_transactions_text f)
  = DecimalString.NilZero.string_of_uint (Nat.to_uint (total_transactions f)) ∧
  option_map Nat.of_uint
    (DecimalString.NilZero.uint_of_string (without_commas (total_transactions_text f)))
  = Some (length f) ∧
  String.length (total_transactions_text f)
  = (length (digits (total_transactions f))
     + (length (digits (total_transactions f)) - 1) / 3)%nat ∧
  ∀ i, (i < String.length (total_transactions_text f))%nat →
       rev (list_ascii_of_string (total_transactions_text f)) !! i
       = if (i mod 4 =? 3)%nat then Some ","%char
         else rev (digits (total_transactions f)) !! (i - i / 4)%nat.
Proof.
  assert (without_commas (total_transactions_text f)
          = DecimalString.NilZero.string_of_uint (Nat.to_uint (total_transactions f))) as Hw.
  { unfold without_commas, total_transactions_text, format_count.
    rewrite list_ascii_of_string_of_list_ascii.
    rewrite List.filter_rev, filter_commas_rev.
    - rewrite rev_involutive. apply string_of_list_ascii_of_string.
    - apply Forall_forall. intros c Hc.
      assert (c ∈ digits (total_transactions f)) as Hc'
        by (apply list_elem_of_In, in_rev, list_elem_of_In, Hc).
      revert c Hc' Hc. intros c Hc' _. revert c Hc'.
      apply Forall_forall, digits_not_comma. }
  assert (∀ l, String.length (string_of_list_ascii l) = length l) as Hlen
    by (intros l; induction l; simpl; congruence).
  split_and!.
  - done.
  - rewrite Hw. apply uint_of_digits.
  - unfold total_transactions_text, format_count.
    rewrite <- (length_rev (digits _)), <- length_commas_rev, <- length_rev.
    apply Hlen.
  - unfold total_transactions_text, format_count. intros i Hi.
    rewrite Hlen, length_rev in Hi.
    rewrite list_ascii_of_string_of_list_ascii, rev_involutive.
    by apply lookup_commas_rev.
Qed.

(** Counts below and above a thousand. *)
Example count_text_examples :
  format_count 0 = "0" ∧ format_count 999 = "999" ∧
  format_count 1000 = "1,000" ∧ format_count 4321 = "4,321" ∧
  total_transactions_text (filtered sample_df jan_feb) = "3".
Proof. by vm_compute. Qed.
